(** * SecureNT Facebook feed widget: a shallow embedding of [src/api.js] and
    [src/widget.js], with the properties of the fetch / cache / filter /
    paginate core.

    Layout: the platform the code runs on (decimal text, JSON text, ISO
    date text, [localStorage], the network), then the two source modules,
    then the theorems. *)

From Stdlib Require Import ZArith NArith Lia Bool Ascii String List.
From Stdlib Require Import Decimal DecimalFacts DecimalPos DecimalN.
From stdpp Require Import base option list strings gmap.

#[local] Open Scope Z_scope.
#[local] Open Scope list_scope.

(* ===================================================================== *)
(** * Part I. Definitions                                                 *)
(* ===================================================================== *)

(** ** Text

    A JS string is modelled by [string]; the codecs below work on its
    character list. *)

Abbreviation chars := (list ascii) (only parsing).

Definition chr (n : N) : ascii := ascii_of_N n.
Definition code (c : ascii) : N := N_of_ascii c.

(** The quotation mark, U+0022. *)
Definition dquote : ascii := Eval cbv in chr 34.

Definition str (s : string) : chars := list_ascii_of_string s.
Definition unstr (l : chars) : string := string_of_list_ascii l.

(** Decimal digits, through the [Decimal.uint] numerals of the library. *)
Module Dec.

Fixpoint uint_chars (d : Decimal.uint) : chars :=
  match d with
  | Nil => []
  | D0 d => "0"%char :: uint_chars d
  | D1 d => "1"%char :: uint_chars d
  | D2 d => "2"%char :: uint_chars d
  | D3 d => "3"%char :: uint_chars d
  | D4 d => "4"%char :: uint_chars d
  | D5 d => "5"%char :: uint_chars d
  | D6 d => "6"%char :: uint_chars d
  | D7 d => "7"%char :: uint_chars d
  | D8 d => "8"%char :: uint_chars d
  | D9 d => "9"%char :: uint_chars d
  end.

Definition is_digit (c : ascii) : bool :=
  ((48 <=? code c) && (code c <=? 57))%N.

Definition push_digit (c : ascii) (d : Decimal.uint) : Decimal.uint :=
  match code c with
  | 48%N => D0 d | 49%N => D1 d | 50%N => D2 d | 51%N => D3 d
  | 52%N => D4 d | 53%N => D5 d | 54%N => D6 d | 55%N => D7 d
  | 56%N => D8 d | _ => D9 d
  end.

(** The longest prefix of digits, as a numeral, and what follows it. *)
Fixpoint read_uint (s : chars) : Decimal.uint * chars :=
  match s with
  | c :: r =>
      if is_digit c
      then let (d, r') := read_uint r in (push_digit c d, r')
      else (Nil, s)
  | [] => (Nil, [])
  end.

(** Number::toString on an integer. *)
Definition Z_chars (z : Z) : chars :=
  match z with
  | Z0 => ["0"%char]
  | Zpos p => uint_chars (Pos.to_uint p)
  | Zneg p => "-"%char :: uint_chars (Pos.to_uint p)
  end.

Definition Z_string (z : Z) : string := unstr (Z_chars z).

Definition starts_with_digit (s : chars) : bool :=
  match s with c :: _ => is_digit c | [] => false end.

(** One digit, and a fixed-width zero-padded field of [w] digits. *)
Definition digit_char (z : Z) : ascii := chr (Z.to_N (48 + z mod 10)).

Fixpoint pad (w : nat) (z : Z) : chars :=
  match w with
  | O => []
  | S w' => pad w' (z / 10) ++ [digit_char z]
  end.

(** Exactly [w] digits, most significant first, added onto [acc]. *)
Fixpoint read_fixed (w : nat) (acc : Z) (s : chars) : option (Z * chars) :=
  match w with
  | O => Some (acc, s)
  | S w' =>
      match s with
      | c :: r =>
          if is_digit c
          then read_fixed w' (10 * acc + (Z.of_N (code c) - 48)) r
          else None
      | [] => None
      end
  end.

End Dec.

(** ** JSON

    The values [response.json()] and [JSON.parse] produce.  Numbers are
    the integers, which JS prints in plain decimal; an object is its
    member list in source order; a string is a sequence of code units
    below 256, so of the [\u] escapes the parser reads those up to 00ff. *)

#[warnings="-register-all"]
Inductive json : Type :=
| JNull
| JBool (b : bool)
| JNum (n : Z)
| JStr (s : string)
| JArr (items : list json)
| JObj (members : list (string * json)).

Module Json.

Definition hex_char (n : N) : ascii :=
  if (n <? 10)%N then chr (48 + n) else chr (87 + n).

Definition hex_val (c : ascii) : option N :=
  let n := code c in
  if ((48 <=? n) && (n <=? 57))%N then Some (n - 48)%N
  else if ((97 <=? n) && (n <=? 102))%N then Some (n - 87)%N
  else if ((65 <=? n) && (n <=? 70))%N then Some (n - 55)%N
  else None.

(** QuoteJSONString, one character. *)
Definition quote_char (c : ascii) : chars :=
  match code c with
  | 34%N => ["\"%char; dquote]
  | 92%N => ["\"%char; "\"%char]
  | 8%N => ["\"%char; "b"%char]
  | 12%N => ["\"%char; "f"%char]
  | 10%N => ["\"%char; "n"%char]
  | 13%N => ["\"%char; "r"%char]
  | 9%N => ["\"%char; "t"%char]
  | n =>
      if (n <? 32)%N
      then ["\"%char; "u"%char; "0"%char; "0"%char;
            hex_char (n / 16); hex_char (n mod 16)]
      else [c]
  end.

Definition quote (s : string) : chars :=
  dquote :: flat_map quote_char (str s) ++ [dquote].

Fixpoint join_comma (parts : list chars) : chars :=
  match parts with
  | [] => []
  | [p] => p
  | p :: rest => p ++ ","%char :: join_comma rest
  end.

(** JSON.stringify without indentation. *)
Fixpoint stringify_chars (v : json) : chars :=
  match v with
  | JNull => str "null"
  | JBool true => str "true"
  | JBool false => str "false"
  | JNum n => Dec.Z_chars n
  | JStr s => quote s
  | JArr items =>
      "["%char :: join_comma (List.map stringify_chars items) ++ ["]"%char]
  | JObj members =>
      "{"%char ::
        join_comma
          (List.map (fun kv => quote (fst kv) ++ ":"%char :: stringify_chars (snd kv))
                    members)
        ++ ["}"%char]
  end.

Definition stringify (v : json) : string := unstr (stringify_chars v).

Definition is_ws (c : ascii) : bool :=
  match code c with
  | 32%N | 9%N | 10%N | 13%N => true
  | _ => false
  end.

Fixpoint skip_ws (s : chars) : chars :=
  match s with
  | c :: r => if is_ws c then skip_ws r else s
  | [] => []
  end.

(** The characters of a string literal after its opening quote, up to
    and including the closing one. *)
Fixpoint parse_chars (s : chars) : option (chars * chars) :=
  match s with
  | [] => None
  | c :: r =>
      match code c with
      | 34%N => Some ([], r)
      | 92%N =>
          match r with
          | e :: r1 =>
              let keep (x : ascii) (rest : chars) :=
                match parse_chars rest with
                | Some (t, r') => Some (x :: t, r')
                | None => None
                end in
              match code e with
              | 34%N => keep dquote r1
              | 92%N => keep "\"%char r1
              | 47%N => keep "/"%char r1
              | 98%N => keep (chr 8) r1
              | 102%N => keep (chr 12) r1
              | 110%N => keep (chr 10) r1
              | 114%N => keep (chr 13) r1
              | 116%N => keep (chr 9) r1
              | 117%N =>
                  match r1 with
                  | h1 :: h2 :: h3 :: h4 :: r2 =>
                      match hex_val h1, hex_val h2, hex_val h3, hex_val h4 with
                      | Some 0%N, Some 0%N, Some a, Some b =>
                          keep (chr (16 * a + b)) r2
                      | _, _, _, _ => None
                      end
                  | _ => None
                  end
              | _ => None
              end
          | [] => None
          end
      | n =>
          if (n <? 32)%N then None
          else match parse_chars r with
               | Some (t, r') => Some (c :: t, r')
               | None => None
               end
      end
  end.

Definition parse_number (s : chars) : option (Z * chars) :=
  let (neg, body) :=
    match s with
    | c :: r => if (code c =? 45)%N then (true, r) else (false, s)
    | [] => (false, s)
    end in
  let (d, r) := Dec.read_uint body in
  match d with
  | Nil => None
  | _ =>
      if Decimal.uint_beq (unorm d) d
      then
        match r with
        | c :: _ =>
            match code c with
            | 46%N | 101%N | 69%N => None
            | _ => Some (if neg then - Z.of_N (N.of_uint d) else Z.of_N (N.of_uint d), r)
            end
        | [] => Some (if neg then - Z.of_N (N.of_uint d) else Z.of_N (N.of_uint d), r)
        end
      else None
  end.

Section Loops.
Variable parse_value : chars -> option (json * chars).

(** After "[" and a first non-"]" character: elements up to "]". *)
Fixpoint parse_items (n : nat) (s : chars) : option (list json * chars) :=
  match n with
  | O => None
  | S n' =>
      match parse_value s with
      | Some (v, r) =>
          match skip_ws r with
          | c :: r' =>
              match code c with
              | 44%N =>
                  match parse_items n' r' with
                  | Some (vs, r'') => Some (v :: vs, r'')
                  | None => None
                  end
              | 93%N => Some ([v], r')
              | _ => None
              end
          | [] => None
          end
      | None => None
      end
  end.

(** After "{" and a first non-"}" character: members up to "}". *)
Fixpoint parse_members (n : nat) (s : chars)
  : option (list (string * json) * chars) :=
  match n with
  | O => None
  | S n' =>
      match skip_ws s with
      | q :: r0 =>
          if (code q =? 34)%N then
            match parse_chars r0 with
            | Some (k, r1) =>
                match skip_ws r1 with
                | colon :: r2 =>
                    if (code colon =? 58)%N then
                      match parse_value r2 with
                      | Some (v, r3) =>
                          match skip_ws r3 with
                          | c :: r4 =>
                              match code c with
                              | 44%N =>
                                  match parse_members n' r4 with
                                  | Some (kvs, r5) => Some ((unstr k, v) :: kvs, r5)
                                  | None => None
                                  end
                              | 125%N => Some ([(unstr k, v)], r4)
                              | _ => None
                              end
                          | [] => None
                          end
                      | None => None
                      end
                    else None
                | [] => None
                end
            | None => None
            end
          else None
      | [] => None
      end
  end.
End Loops.

Definition literal (word : string) (v : json) (s : chars) : option (json * chars) :=
  let w := str word in
  if decide (take (length w) s = w) then Some (v, drop (length w) s) else None.

(** One JSON value, leading white space allowed; [fuel] bounds the
    nesting depth and the number of elements of each array and object. *)
Fixpoint parse_value (fuel : nat) (s : chars) : option (json * chars) :=
  match fuel with
  | O => None
  | S fuel' =>
      match skip_ws s with
      | [] => None
      | c :: r =>
          match code c with
          | 110%N => literal "null" JNull (c :: r)
          | 116%N => literal "true" (JBool true) (c :: r)
          | 102%N => literal "false" (JBool false) (c :: r)
          | 34%N =>
              match parse_chars r with
              | Some (t, r') => Some (JStr (unstr t), r')
              | None => None
              end
          | 91%N =>
              match skip_ws r with
              | c' :: r' =>
                  if (code c' =? 93)%N then Some (JArr [], r')
                  else
                    match parse_items (parse_value fuel') fuel' r with
                    | Some (vs, r'') => Some (JArr vs, r'')
                    | None => None
                    end
              | [] => None
              end
          | 123%N =>
              match skip_ws r with
              | c' :: r' =>
                  if (code c' =? 125)%N then Some (JObj [], r')
                  else
                    match parse_members (parse_value fuel') fuel' r with
                    | Some (kvs, r'') => Some (JObj kvs, r'')
                    | None => None
                    end
              | [] => None
              end
          | _ =>
              match parse_number (c :: r) with
              | Some (n, r') => Some (JNum n, r')
              | None => None
              end
          end
      end
  end.

(** JSON.parse: one value, then nothing but white space; [None] stands
    for the SyntaxError.  It is also the answer here for a text with a
    number that is no integer (a fraction, an exponent) or an escape
    above 00ff, values outside [json]. *)
Definition parse (text : string) : option json :=
  let s := str text in
  match parse_value (S (length s)) s with
  | Some (v, r) => match skip_ws r with [] => Some v | _ => None end
  | None => None
  end.

End Json.

(** ** Dates

    A Date object is its time value: milliseconds since the epoch, or NaN
    for an Invalid Date ([None]). *)

Definition Date : Type := option Z.

Module Dates.

Definition msPerDay : Z := 86400000.
Definition maxTime : Z := 8640000000000000.

Definition TimeClip (t : Z) : Date :=
  if (Z.abs t <=? maxTime) then Some t else None.

(** The relational operators of JS on two Dates: a comparison with NaN
    on either side is false. *)
Definition lt (a b : Date) : bool :=
  match a, b with
  | Some x, Some y => x <? y
  | _, _ => false
  end.

Definition gt (a b : Date) : bool := lt b a.

Definition is_leap (y : Z) : bool :=
  ((y mod 4 =? 0) && negb (y mod 100 =? 0)) || (y mod 400 =? 0).

Definition days_in_month (y m : Z) : Z :=
  if m =? 2 then (if is_leap y then 29 else 28)
  else if (m =? 4) || (m =? 6) || (m =? 9) || (m =? 11) then 30
  else 31.

(** The proleptic Gregorian calendar in eras of 400 years, each starting
    on 1 March; [doe] is the day of the era. *)
Definition daysPerEra : Z := 146097.

Definition civil_of_doe (doe : Z) : Z * Z * Z :=
  let yoe := (doe - doe / 1460 + doe / 36524 - doe / 146096) / 365 in
  let doy := doe - (365 * yoe + yoe / 4 - yoe / 100) in
  let mp := (5 * doy + 2) / 153 in
  let d := doy - (153 * mp + 2) / 5 + 1 in
  let m := if mp <? 10 then mp + 3 else mp - 9 in
  (if m <=? 2 then yoe + 1 else yoe, m, d).

Definition doe_of_civil (yoe m d : Z) : Z :=
  let mp := if 2 <? m then m - 3 else m + 9 in
  let doy := (153 * mp + 2) / 5 + d - 1 in
  yoe * 365 + yoe / 4 - yoe / 100 + doy.

(** Day number (days since 1970-01-01) to year, month, day and back. *)
Definition civil_from_days (z : Z) : Z * Z * Z :=
  let z' := z + 719468 in
  let '(y0, m, d) := civil_of_doe (z' mod daysPerEra) in
  (y0 + 400 * (z' / daysPerEra), m, d).

Definition days_from_civil (y m d : Z) : Z :=
  let y' := if m <=? 2 then y - 1 else y in
  (y' / 400) * daysPerEra + doe_of_civil (y' mod 400) m d - 719468.

Definition year_chars (y : Z) : chars :=
  if (0 <=? y) && (y <=? 9999) then Dec.pad 4 y
  else (if y <? 0 then "-"%char else "+"%char) :: Dec.pad 6 (Z.abs y).

(** Date.prototype.toISOString, on a valid time value. *)
Definition toISOString_chars (t : Z) : chars :=
  let '(y, m, d) := civil_from_days (t / msPerDay) in
  let ms := t mod msPerDay in
  year_chars y ++ "-"%char :: Dec.pad 2 m ++ "-"%char :: Dec.pad 2 d
    ++ "T"%char :: Dec.pad 2 (ms / 3600000)
    ++ ":"%char :: Dec.pad 2 (ms / 60000 mod 60)
    ++ ":"%char :: Dec.pad 2 (ms / 1000 mod 60)
    ++ "."%char :: Dec.pad 3 (ms mod 1000) ++ ["Z"%char].

Definition toISOString (t : Z) : string := unstr (toISOString_chars t).

Definition expect (c : ascii) (s : chars) : option chars :=
  match s with
  | x :: r => if decide (x = c) then Some r else None
  | [] => None
  end.

Definition parse_year (s : chars) : option (Z * chars) :=
  match s with
  | c :: r =>
      if (code c =? 43)%N then Dec.read_fixed 6 0 r
      else if (code c =? 45)%N then
        match Dec.read_fixed 6 0 r with
        | Some (y, r') => if y =? 0 then None else Some (- y, r')
        | None => None
        end
      else Dec.read_fixed 4 0 s
  | [] => None
  end.

(** The UTC offset that ends a date-time: Z, or a sign and HH:mm (the
    colon may be left out); the result is the offset in minutes. *)
Definition parse_offset (s : chars) : option Z :=
  match s with
  | c :: r =>
      if (code c =? 90)%N then (match r with [] => Some 0 | _ => None end)
      else if (code c =? 43)%N || (code c =? 45)%N then
        match Dec.read_fixed 2 0 r with
        | Some (hh, r1) =>
            let r2 := match expect ":"%char r1 with Some r' => r' | None => r1 end in
            match Dec.read_fixed 2 0 r2 with
            | Some (mm, []) =>
                if (hh <=? 23) && (mm <=? 59)
                then Some (if (code c =? 45)%N then - (hh * 60 + mm) else hh * 60 + mm)
                else None
            | _ => None
            end
        | None => None
        end
      else None
  | [] => None
  end.

(** Optional seconds and milliseconds, then the offset; the result is
    (seconds, milliseconds, offset in minutes). *)
Definition parse_seconds (s : chars) : option (Z * Z * Z) :=
  match expect ":"%char s with
  | Some r =>
      match Dec.read_fixed 2 0 r with
      | Some (ss, r1) =>
          match expect "."%char r1 with
          | Some r2 =>
              match Dec.read_fixed 3 0 r2 with
              | Some (ms, r3) =>
                  match parse_offset r3 with
                  | Some off => Some (ss, ms, off)
                  | None => None
                  end
              | None => None
              end
          | None =>
              match parse_offset r1 with
              | Some off => Some (ss, 0, off)
              | None => None
              end
          end
      | None => None
      end
  | None =>
      match parse_offset s with
      | Some off => Some (0, 0, off)
      | None => None
      end
  end.

(** The time of day and offset after the T, as milliseconds to add to
    the start of the UTC day. *)
Definition parse_time (s : chars) : option Z :=
  match Dec.read_fixed 2 0 s with
  | Some (hh, r1) =>
      match expect ":"%char r1 with
      | Some r2 =>
          match Dec.read_fixed 2 0 r2 with
          | Some (mi, r3) =>
              match parse_seconds r3 with
              | Some (ss, ms, off) =>
                  if ((hh <=? 23) && (mi <=? 59) && (ss <=? 59))
                     || ((hh =? 24) && (mi =? 0) && (ss =? 0) && (ms =? 0))
                  then Some (hh * 3600000 + mi * 60000 + ss * 1000 + ms - off * 60000)
                  else None
              | None => None
              end
          | None => None
          end
      | None => None
      end
  | None => None
  end.

Definition parse_chars (s : chars) : Date :=
  match parse_year s with
  | Some (y, r1) =>
      match expect "-"%char r1 with
      | Some r2 =>
          match Dec.read_fixed 2 0 r2 with
          | Some (m, r3) =>
              match expect "-"%char r3 with
              | Some r4 =>
                  match Dec.read_fixed 2 0 r4 with
                  | Some (d, r5) =>
                      if (1 <=? m) && (m <=? 12) && (1 <=? d) && (d <=? days_in_month y m)
                      then
                        match r5 with
                        | [] => TimeClip (days_from_civil y m d * msPerDay)
                        | c :: r6 =>
                            if (code c =? 84)%N then
                              match parse_time r6 with
                              | Some tod => TimeClip (days_from_civil y m d * msPerDay + tod)
                              | None => None
                              end
                            else None
                        end
                      else None
                  | None => None
                  end
              | None => None
              end
          | None => None
          end
      | None => None
      end
  | None => None
  end.

(** [new Date(text)]: the date-time string format of ECMAScript, a date
    alone (read as UTC) or a date and time with its UTC offset.  A
    result [Some t] is the instant the platform reads.  [None] is the
    Invalid Date of a text that is no date; it is also the answer here
    for the texts outside these forms that an engine may read all the
    same (a year or a year and month alone, a time without an offset, a
    fraction of other than three digits, a day past the end of its
    month, 12/02/2025), which this model does not cover: a statement
    that rests on [None] is made only of texts that are no date. *)
Definition parse (text : string) : Date := parse_chars (str text).

End Dates.

(** ** The browser: clock, [localStorage], network, console *)

(** An Error object, of which the code reads [error.message]. *)
Record JsError : Type := { error_message : string }.

Inductive Body : Type :=
| JsonBody (value : json)        (* [response.json()] resolves to [value] *)
| BadBody (reason : string).     (* [response.json()] rejects with this message *)

(** What the network answers to one request, [latency] ms after it is sent. *)
Inductive Reply : Type :=
| Rejected (latency : Z) (reason : string)
| Response (latency : Z) (status : Z) (body : Body).

Inductive Level : Type := LogLevel | WarnLevel | ErrorLevel.

Inductive Event : Type :=
| Fetch (url : string)
| Wait (ms : Z)
| Console (level : Level) (text : string).

Record World : Type := {
  hostname : string;                    (* window.location.hostname *)
  localTZA : Z -> bool -> Z;            (* LocalTZA(t, isUTC) of ECMAScript, in ms *)
  clock : Z;                            (* the time value [new Date()] reads *)
  storage : gmap string string;         (* the items of localStorage *)
  storage_denied : bool;                (* every access to localStorage throws *)
  storage_faults : list bool;           (* per coming [setItem]: [true] = it throws *)
  network : nat -> string -> Reply;     (* the answer to the n-th request, by URL *)
  sent : nat;                           (* requests made so far *)
  trace : list Event                    (* what happened, oldest first *)
}.

Definition emit (e : Event) (w : World) : World :=
  {| hostname := hostname w; localTZA := localTZA w; clock := clock w; storage := storage w;
     storage_denied := storage_denied w; storage_faults := storage_faults w;
     network := network w; sent := sent w; trace := trace w ++ [e] |}.

Definition advance (ms : Z) (w : World) : World :=
  {| hostname := hostname w; localTZA := localTZA w; clock := clock w + ms; storage := storage w;
     storage_denied := storage_denied w; storage_faults := storage_faults w;
     network := network w; sent := sent w; trace := trace w |}.

Definition count_request (w : World) : World :=
  {| hostname := hostname w; localTZA := localTZA w; clock := clock w; storage := storage w;
     storage_denied := storage_denied w; storage_faults := storage_faults w;
     network := network w; sent := S (sent w); trace := trace w |}.

Definition with_storage (items : gmap string string) (faults : list bool) (w : World) : World :=
  {| hostname := hostname w; localTZA := localTZA w; clock := clock w; storage := items;
     storage_denied := storage_denied w; storage_faults := faults;
     network := network w; sent := sent w; trace := trace w |}.

(** A computation either returns or throws, and leaves a new world. *)
Inductive Res (A : Type) : Type :=
| Ok (a : A)
| Throw (e : JsError).
Arguments Ok {A} a.
Arguments Throw {A} e.

Definition M (A : Type) : Type := World -> Res A * World.

Definition ret {A} (a : A) : M A := fun w => (Ok a, w).
Definition throw {A} (e : JsError) : M A := fun w => (Throw e, w).

Definition bind {A B} (m : M A) (k : A -> M B) : M B :=
  fun w => match m w with
           | (Ok a, w') => k a w'
           | (Throw e, w') => (Throw e, w')
           end.

(** [try { m } catch (error) { handler error }] *)
Definition try_catch {A} (m : M A) (handler : JsError -> M A) : M A :=
  fun w => match m w with
           | (Ok a, w') => (Ok a, w')
           | (Throw e, w') => handler e w'
           end.

Notation "'do' x <- m ;; k" := (bind m (fun x => k))
  (at level 10, x name, m at level 99, k at level 200).
Notation "'exec' m ;; k" := (bind m (fun _ => k))
  (at level 10, m at level 99, k at level 200).

Definition effect (f : World -> World) : M unit := fun w => (Ok tt, f w).
Definition console (l : Level) (text : string) : M unit := effect (emit (Console l text)).
Definition Date_now : M Z := fun w => (Ok (clock w), w).

(** setTimeout as awaited by the code: the time passes. *)
Definition sleep (ms : Z) : M unit := effect (fun w => advance ms (emit (Wait ms) w)).

Definition localStorage_error : JsError :=
  {| error_message := "The operation is insecure." |}.
Definition quota_error : JsError :=
  {| error_message := "The quota has been exceeded." |}.

Definition getItem (key : string) : M (option string) :=
  fun w => if storage_denied w then (Throw localStorage_error, w)
           else (Ok (storage w !! key), w).

Definition setItem (key value : string) : M unit :=
  fun w =>
    if storage_denied w then (Throw localStorage_error, w)
    else match storage_faults w with
         | true :: faults => (Throw quota_error, with_storage (storage w) faults w)
         | false :: faults => (Ok tt, with_storage (<[key := value]> (storage w)) faults w)
         | [] => (Ok tt, with_storage (<[key := value]> (storage w)) [] w)
         end.

(** JS truthiness of a string or of a missing item. *)
Definition truthy (s : option string) : bool :=
  match s with
  | Some EmptyString | None => false
  | Some _ => true
  end.

(** ** src/api.js *)

Module Api.

Definition CACHE_KEY : string := "securent-fb-cache".
Definition CACHE_TIME_KEY : string := "securent-fb-cache-time".
Definition API_TIMEOUT : Z := 5000.

Definition getApiUrl (apiUrl : string) : M string :=
  fun w =>
    let hostname := hostname w in
    if decide (hostname = "localhost" \/ hostname = "127.0.0.1" \/ hostname = EmptyString)
    then (exec console LogLevel "[SecureNT Widget] Running on localhost - using mock data" ;;
          ret "mock-data.json"%string) w
    else ret apiUrl w.

(** The message of the AbortError an aborted [fetch] rejects with. *)
Definition abort_message : string := "The operation was aborted.".

(** [await fetch(url, {signal, ...})] raced against the abort timer of
    [API_TIMEOUT] ms: the answer when it comes first, the abort
    otherwise. *)
Definition fetch (url : string) : M (Z * Body) :=
  fun w =>
    let w1 := count_request (emit (Fetch url) w) in
    match network w (sent w) url with
    | Rejected latency reason =>
        if latency <? API_TIMEOUT
        then (Throw {| error_message := reason |}, advance latency w1)
        else (Throw {| error_message := abort_message |}, advance API_TIMEOUT w1)
    | Response latency status body =>
        if latency <? API_TIMEOUT
        then (Ok (status, body), advance latency w1)
        else (Throw {| error_message := abort_message |}, advance API_TIMEOUT w1)
    end.

Definition response_ok (status : Z) : bool := (200 <=? status) && (status <=? 299).

Definition response_json (body : Body) : M json :=
  match body with
  | JsonBody v => ret v
  | BadBody reason => throw {| error_message := reason |}
  end.

Definition saveToCache (data : json) : M unit :=
  try_catch
    (exec setItem CACHE_KEY (Json.stringify data) ;;
     do now <- Date_now ;;
     setItem CACHE_TIME_KEY (Dates.toISOString now))
    (fun error => console WarnLevel "Failed to save to cache:").

Record Cached : Type := { cached_data : json; cached_timestamp : Date }.

Definition JSON_parse (text : string) : M json :=
  match Json.parse text with
  | Some v => ret v
  | None => throw {| error_message := "JSON.parse: unexpected character" |}
  end.

Definition getFromCache : M (option Cached) :=
  try_catch
    (do data <- getItem CACHE_KEY ;;
     do timestamp <- getItem CACHE_TIME_KEY ;;
     match data, timestamp with
     | Some d, Some t =>
         if truthy data && truthy timestamp then
           do v <- JSON_parse d ;;
           ret (Some {| cached_data := v; cached_timestamp := Dates.parse t |})
         else ret None
     | _, _ => ret None
     end)
    (fun error =>
       exec console WarnLevel "Failed to read from cache:" ;;
       ret None).

Definition delays : list Z := [1000; 2000].

(** The body of the [try] of one attempt. *)
Definition attempt_once (url : string) : M json :=
  do response <- fetch url ;;
  let (status, body) := response : Z * Body in
  if negb (response_ok status) then
    if (400 <=? status) && (status <? 500)
    then throw {| error_message := "API error: " +:+ Dec.Z_string status |}
    else throw {| error_message := "HTTP " +:+ Dec.Z_string status |}
  else
    do data <- response_json body ;;
    exec saveToCache data ;;
    ret data.

(** The [for] loop from [attempt = retries - left] on.  Its test
    [attempt <= retries] holds at every iteration; it is left by the
    [return] of the [try] or the [throw] of the [catch]. *)
Fixpoint fetchWithRetry_loop (url : string) (retries left : nat) : M json :=
  let attempt := (retries - left)%nat in
  try_catch (attempt_once url)
    (fun error =>
       match left with
       | O =>
           (* attempt === retries *)
           exec console ErrorLevel "API fetch failed after retries:" ;;
           throw error
       | S left' =>
           exec (match delays !! attempt with
                | Some d => sleep d
                | None => ret tt
                end) ;;
           fetchWithRetry_loop url retries left'
       end).

Definition fetchWithRetry (url : string) (retries : nat) : M json :=
  fetchWithRetry_loop url retries retries.

Record FeedResult : Type := {
  data : json;
  fromCache : bool;
  timestamp : Date;
  error : option string
}.

Definition fetchFeed (apiUrl : string) : M FeedResult :=
  try_catch
    (do url <- getApiUrl apiUrl ;;
     do data <- fetchWithRetry url 2 ;;
     do now <- Date_now ;;
     ret {| data := data; fromCache := false; timestamp := Some now; error := None |})
    (fun error =>
       do cached <- getFromCache ;;
       match cached with
       | Some c =>
           ret {| data := cached_data c; fromCache := true;
                  timestamp := cached_timestamp c; error := Some (error_message error) |}
       | None => throw error
       end).

Definition getCachedFeed : M (option Cached) := getFromCache.

End Api.

(** ** String methods used by [src/widget.js]

    A character is read as a code unit below 256. *)

Module Str.

Definition lower_char (c : ascii) : ascii :=
  let n := code c in
  if ((65 <=? n) && (n <=? 90))%N then chr (n + 32)
  else if ((192 <=? n) && (n <=? 222) && negb (n =? 215))%N then chr (n + 32)
  else c.

Definition toLowerCase (s : string) : string := unstr (List.map lower_char (str s)).

Definition is_space (c : ascii) : bool :=
  match code c with
  | 9%N | 10%N | 11%N | 12%N | 13%N | 32%N | 160%N => true
  | _ => false
  end.

Fixpoint trim_start (s : chars) : chars :=
  match s with
  | c :: r => if is_space c then trim_start r else s
  | [] => []
  end.

Definition trim (s : string) : string :=
  unstr (rev (trim_start (rev (trim_start (str s))))).

Fixpoint split_chars (sep : ascii) (s : chars) : list chars :=
  match s with
  | [] => [[]]
  | c :: r =>
      if decide (c = sep) then [] :: split_chars sep r
      else match split_chars sep r with
           | h :: t => (c :: h) :: t
           | [] => [[c]]
           end
  end.

(** [s.split(sep)] for a separator of one character. *)
Definition split (sep : ascii) (s : string) : list string :=
  List.map unstr (split_chars sep (str s)).

Fixpoint starts_with (p s : chars) : bool :=
  match p, s with
  | [], _ => true
  | x :: p', y :: s' => if decide (x = y) then starts_with p' s' else false
  | _ :: _, [] => false
  end.

Fixpoint includes_chars (s p : chars) : bool :=
  starts_with p s ||
  match s with
  | [] => false
  | _ :: r => includes_chars r p
  end.

(** [s.includes(p)] *)
Definition includes (s p : string) : bool := includes_chars (str s) (str p).

(** The longest prefix of hexadecimal digits, as a number; [acc] is [None]
    until a digit is read. *)
Fixpoint read_hex (acc : option Z) (s : chars) : option Z :=
  match s with
  | c :: r =>
      match Json.hex_val c with
      | Some h =>
          read_hex (Some (16 * (match acc with Some a => a | None => 0 end) + Z.of_N h)) r
      | None => acc
      end
  | [] => acc
  end.

(** [parseInt(text)] with no radix given: white space, a sign, then
    decimal digits, or hexadecimal ones after 0x; [None] is NaN. *)
Definition parseInt (text : string) : option Z :=
  let s := trim_start (str text) in
  let (neg, body) :=
    match s with
    | c :: r =>
        if (code c =? 45)%N then (true, r)
        else if (code c =? 43)%N then (false, r)
        else (false, s)
    | [] => (false, s)
    end in
  let magnitude :=
    match body with
    | c0 :: x :: r =>
        if (code c0 =? 48)%N && ((code x =? 120)%N || (code x =? 88)%N)
        then read_hex None r
        else match Dec.read_uint body with
             | (Nil, _) => None
             | (d, _) => Some (Z.of_N (N.of_uint d))
             end
    | _ =>
        match Dec.read_uint body with
        | (Nil, _) => None
        | (d, _) => Some (Z.of_N (N.of_uint d))
        end
    end in
  match magnitude with
  | Some n => Some (if neg then - n else n)
  | None => None
  end.

End Str.

(** ** Posts

    The feed as [src/widget.js] reads it: of each post, [created_time]
    and the optional [message]. *)

Record Post : Type := {
  id : string;
  created_time : string;
  message : option string
}.

Module Posts.

(** Property access on a parsed object: the last member of that name. *)
Fixpoint member (key : string) (members : list (string * json)) : option json :=
  match members with
  | [] => None
  | (k, v) :: rest =>
      match member key rest with
      | Some v' => Some v'
      | None => if decide (k = key) then Some v else None
      end
  end.

Definition post_of_json (v : json) : option Post :=
  match v with
  | JObj members =>
      match member "created_time" members with
      | Some (JStr ct) =>
          let id := match member "id" members with
                    | Some (JStr i) => i
                    | _ => EmptyString
                    end in
          match member "message" members with
          | None | Some JNull => Some {| id := id; created_time := ct; message := None |}
          | Some (JStr m) => Some {| id := id; created_time := ct; message := Some m |}
          | Some _ => None
          end
      | _ => None
      end
  | _ => None
  end.

Fixpoint posts_of_items (items : list json) : option (list Post) :=
  match items with
  | [] => Some []
  | v :: rest =>
      match post_of_json v, posts_of_items rest with
      | Some p, Some ps => Some (p :: ps)
      | _, _ => None
      end
  end.

(** The typed reading of a feed value: an array of post objects, or a
    falsy value, which [filterPosts] takes for no posts.  [None] is a
    value of another shape: one that is no array, on which
    [posts.filter] throws, and also an array with an element that is no
    object with a string [created_time], which this reading does not
    cover. *)
Definition of_json (v : json) : option (list Post) :=
  match v with
  | JArr items => posts_of_items items
  | JNull | JBool false | JNum 0 | JStr EmptyString => Some []
  | _ => None
  end.

Definition to_json (p : Post) : json :=
  JObj (("id"%string, JStr (id p)) :: ("created_time"%string, JStr (created_time p))
        :: match message p with
           | Some m => [("message"%string, JStr m)]
           | None => []
           end).

Definition feed_json (ps : list Post) : json := JArr (List.map to_json ps).

End Posts.

(** ** src/widget.js *)

Module Widget.

Record Options : Type := {
  apiUrl : string;
  itemsPerPage : Z;
  fallbackUrl : string;
  theme : string;
  title : string;
  content : option string;
  fallbackMessage : option string
}.

(** The [options] argument of the constructor, as [src/index.js] reads
    it from the data attributes: each one a string or missing. *)
Record RawOptions : Type := {
  raw_apiUrl : option string;
  raw_itemsPerPage : option string;
  raw_fallbackUrl : option string;
  raw_theme : option string;
  raw_title : option string;
  raw_content : option string;
  raw_fallbackMessage : option string;
  raw_filterKeywords : option string;
  raw_startDate : option string;
  raw_endDate : option string
}.

(** What the constructor fixes for the life of the instance.  A date
    filter is [None] for [null], [Some d] for a Date object [d], which
    may be an Invalid Date. *)
Record Config : Type := {
  options : Options;
  filterKeywords : option (list string);
  startDate : option Date;
  endDate : option Date
}.

(** [element.innerHTML], by what it shows. *)
Inductive View : Type :=
| Blank
| Skeleton (cards : Z)
| Feed (notice : option (option Date)) (pagePosts : list Post)
       (pagination : option (Z * Z)) (spinner : bool)
| ErrorView (text url : string).

Record FacebookFeedWidget : Type := {
  config : Config;
  posts : list Post;
  currentPage : Z;
  isLoading : bool;
  observed : bool;
  fromCache : bool;
  cacheTimestamp : option Date;
  view : View;
  renders : nat;                (* calls of [render] so far *)
  scrolls : nat                 (* calls of [scrollIntoView] so far *)
}.

Definition or_default (o : option string) (d : string) : string :=
  match o with
  | Some s => if truthy o then s else d
  | None => d
  end.

Definition or_null (o : option string) : option string :=
  if truthy o then o else None.

(** [text.split(";").map((k) => k.trim().toLowerCase()).filter((k) => k)] *)
Definition parse_keywords (text : string) : list string :=
  List.filter (fun k => truthy (Some k))
    (List.map (fun k => Str.toLowerCase (Str.trim k)) (Str.split ";"%char text)).

Definition parse_date_option (o : option string) : option Date :=
  match o with
  | Some s => if truthy o then Some (Dates.parse s) else None
  | None => None
  end.

Definition configure (raw : RawOptions) : Config :=
  {| options :=
       {| apiUrl := or_default (raw_apiUrl raw)
            "https://securent.nt.gov.au/_design/integration-points/socials/facebook-securent/_nocache";
          itemsPerPage :=
            match raw_itemsPerPage raw with
            | Some s => match Str.parseInt s with
                        | Some 0 | None => 5
                        | Some n => n
                        end
            | None => 5
            end;
          fallbackUrl := or_default (raw_fallbackUrl raw) "https://www.facebook.com/SecureNT";
          theme := or_default (raw_theme raw) "light";
          title := or_default (raw_title raw) "Latest from SecureNT";
          content := or_null (raw_content raw);
          fallbackMessage := or_null (raw_fallbackMessage raw) |};
     filterKeywords :=
       match raw_filterKeywords raw with
       | Some s => if truthy (raw_filterKeywords raw) then Some (parse_keywords s) else None
       | None => None
       end;
     startDate := parse_date_option (raw_startDate raw);
     endDate := parse_date_option (raw_endDate raw) |}.

(** The state after [constructor], [init] and [setupLazyLoading]. *)
Definition create (raw : RawOptions) : FacebookFeedWidget :=
  {| config := configure raw; posts := []; currentPage := 1; isLoading := false;
     observed := true; fromCache := false; cacheTimestamp := None;
     view := Blank; renders := 0; scrolls := 0 |}.

Definition set_view (v : View) (wd : FacebookFeedWidget) : FacebookFeedWidget :=
  {| config := config wd; posts := posts wd; currentPage := currentPage wd;
     isLoading := isLoading wd; observed := observed wd; fromCache := fromCache wd;
     cacheTimestamp := cacheTimestamp wd; view := v; renders := renders wd;
     scrolls := scrolls wd |}.

Definition set_isLoading (b : bool) (wd : FacebookFeedWidget) : FacebookFeedWidget :=
  {| config := config wd; posts := posts wd; currentPage := currentPage wd;
     isLoading := b; observed := observed wd; fromCache := fromCache wd;
     cacheTimestamp := cacheTimestamp wd; view := view wd; renders := renders wd;
     scrolls := scrolls wd |}.

Definition set_currentPage (p : Z) (wd : FacebookFeedWidget) : FacebookFeedWidget :=
  {| config := config wd; posts := posts wd; currentPage := p;
     isLoading := isLoading wd; observed := observed wd; fromCache := fromCache wd;
     cacheTimestamp := cacheTimestamp wd; view := view wd; renders := renders wd;
     scrolls := scrolls wd |}.

Definition set_observed (b : bool) (wd : FacebookFeedWidget) : FacebookFeedWidget :=
  {| config := config wd; posts := posts wd; currentPage := currentPage wd;
     isLoading := isLoading wd; observed := b; fromCache := fromCache wd;
     cacheTimestamp := cacheTimestamp wd; view := view wd; renders := renders wd;
     scrolls := scrolls wd |}.

(** The four assignments of [loadFeed] and [showError] before [render]. *)
Definition set_feed (ps : list Post) (cached : bool) (ts : Date)
    (wd : FacebookFeedWidget) : FacebookFeedWidget :=
  {| config := config wd; posts := ps; currentPage := 1;
     isLoading := isLoading wd; observed := observed wd; fromCache := cached;
     cacheTimestamp := Some ts; view := view wd; renders := renders wd;
     scrolls := scrolls wd |}.

Definition scrollIntoView (wd : FacebookFeedWidget) : FacebookFeedWidget :=
  {| config := config wd; posts := posts wd; currentPage := currentPage wd;
     isLoading := isLoading wd; observed := observed wd; fromCache := fromCache wd;
     cacheTimestamp := cacheTimestamp wd; view := view wd; renders := renders wd;
     scrolls := S (scrolls wd) |}.

(** [Math.ceil(a / b)] on integers, [b] not 0. *)
Definition ceil_div (a b : Z) : Z := - ((- a) / b).

(** [l.slice(start, end)] *)
Definition slice {A} (l : list A) (start end_ : Z) : list A :=
  let len := Z.of_nat (length l) in
  let from := if start <? 0 then Z.max (len + start) 0 else Z.min start len in
  let to := if end_ <? 0 then Z.max (len + end_) 0 else Z.min end_ len in
  take (Z.to_nat (to - from)) (drop (Z.to_nat from) l).

Definition totalPages (wd : FacebookFeedWidget) : Z :=
  ceil_div (Z.of_nat (length (posts wd))) (itemsPerPage (options (config wd))).

(** Truthiness of a property that holds an object or [null]. *)
Definition non_null {A} (o : option A) : bool :=
  match o with Some _ => true | None => false end.

Section Filter.
(** The time zone of the host. *)
Variable LocalTZA : Z -> bool -> Z.

(** [d.setHours(23, 59, 59, 999)] on a copy of [d]: the last
    millisecond of the local day [d] falls on. *)
Definition endOfDay (d : Date) : Date :=
  match d with
  | None => None
  | Some t =>
      let local := t + LocalTZA t true in
      let last := (local / Dates.msPerDay) * Dates.msPerDay
                  + (23 * 3600000 + 59 * 60000 + 59 * 1000 + 999) in
      Dates.TimeClip (last - LocalTZA last false)
  end.

(** The callback of [posts.filter] in [filterPosts]. *)
Definition keeps (c : Config) (post : Post) : bool :=
  let dates_pass :=
    if non_null (startDate c) || non_null (endDate c) then
      let postDate := Dates.parse (created_time post) in
      if match startDate c with
         | Some s => Dates.lt postDate s
         | None => false
         end
      then false
      else match endDate c with
           | Some e => negb (Dates.gt postDate (endOfDay e))
           | None => true
           end
    else true in
  if dates_pass then
    match filterKeywords c with
    | Some (k :: ks) =>
        let message :=
          Str.toLowerCase (match message post with Some m => m | None => EmptyString end) in
        existsb (fun keyword => Str.includes message keyword) (k :: ks)
    | Some [] | None => true
    end
  else false.

(** [filterPosts(posts)] on an array. *)
Definition filterPosts (c : Config) (posts : list Post) : list Post :=
  match posts with
  | [] => []
  | _ => List.filter (keeps c) posts
  end.

(** [filterPosts(posts)] on any feed value; [None] for the TypeError
    of a value that is no array. *)
Definition filterPosts_json (c : Config) (v : json) : option (list Post) :=
  match Posts.of_json v with
  | Some ps => Some (filterPosts c ps)
  | None => None
  end.
End Filter.

Definition render (wd : FacebookFeedWidget) : FacebookFeedWidget :=
  let perPage := itemsPerPage (options (config wd)) in
  let start := (currentPage wd - 1) * perPage in
  let end_ := start + perPage in
  let pagePosts := slice (posts wd) start end_ in
  let totalPages := totalPages wd in
  {| config := config wd; posts := posts wd; currentPage := currentPage wd;
     isLoading := isLoading wd; observed := observed wd; fromCache := fromCache wd;
     cacheTimestamp := cacheTimestamp wd;
     view := Feed (if fromCache wd then Some (cacheTimestamp wd) else None)
                  pagePosts
                  (if 1 <? totalPages then Some (currentPage wd, totalPages) else None)
                  false;
     renders := S (renders wd); scrolls := scrolls wd |}.

Definition goToPage (page : Z) (wd : FacebookFeedWidget) : FacebookFeedWidget :=
  let totalPages := totalPages wd in
  if (page <? 1) || (totalPages <? page) then wd
  else scrollIntoView (render (set_currentPage page wd)).

Definition showSkeletonLoader (wd : FacebookFeedWidget) : FacebookFeedWidget :=
  set_view (Skeleton (itemsPerPage (options (config wd)))) wd.

Definition showLoadingState (wd : FacebookFeedWidget) : FacebookFeedWidget :=
  match view wd with
  | Feed notice pagePosts pagination _ => set_view (Feed notice pagePosts pagination true) wd
  | _ => wd
  end.

Definition type_error : JsError := {| error_message := "posts.filter is not a function" |}.
Definition range_error : JsError := {| error_message := "Invalid array length" |}.

Definition showError (wd : FacebookFeedWidget) (w : World)
  : Res unit * FacebookFeedWidget * World :=
  match Api.getCachedFeed w with
  | (Ok (Some cached), w') =>
      match filterPosts_json (localTZA w) (config wd) (Api.cached_data cached) with
      | Some ps => (Ok tt, render (set_feed ps true (Api.cached_timestamp cached) wd), w')
      | None => (Throw type_error, wd, w')
      end
  | (Ok None, w') =>
      let fallbackMsg :=
        match fallbackMessage (options (config wd)) with
        | Some m => m
        | None => "Unable to load posts at this time."%string
        end in
      (Ok tt, set_view (ErrorView fallbackMsg (fallbackUrl (options (config wd)))) wd, w')
  | (Throw e, w') => (Throw e, wd, w')
  end.

(** [loadFeed] up to its [await]. *)
Inductive Begun : Type :=
| Ignored                                           (* the guard returned *)
| Crashed (wd : FacebookFeedWidget) (e : JsError)   (* thrown before the [try] *)
| Started (wd : FacebookFeedWidget).                (* [fetchFeed] is to be called *)

Definition loadFeed_begin (isRefresh : bool) (wd : FacebookFeedWidget) : Begun :=
  if isLoading wd then Ignored
  else
    let wd1 := set_isLoading true wd in
    if isRefresh then Started (showLoadingState wd1)
    else
      let n := itemsPerPage (options (config wd1)) in
      if (n <? 0) || (4294967295 <? n) then Crashed wd1 range_error
      else Started (showSkeletonLoader wd1).

(** [loadFeed] from the settlement of [fetchFeed] on: the rest of the
    [try], the [catch] and the [finally]. *)
Definition loadFeed_settle (outcome : Res Api.FeedResult)
    (wd : FacebookFeedWidget) (w : World) : Res unit * FacebookFeedWidget * World :=
  let '(r, wd1, w1) :=
    match outcome with
    | Ok result =>
        match filterPosts_json (localTZA w) (config wd) (Api.data result) with
        | Some ps =>
            (Ok tt, render (set_feed ps (Api.fromCache result) (Api.timestamp result) wd), w)
        | None => showError wd w
        end
    | Throw _ => showError wd w
    end in
  (r, set_isLoading false wd1, w1).

(** One whole call of [loadFeed], nothing else running in between. *)
Definition loadFeed (isRefresh : bool) (wd : FacebookFeedWidget) (w : World)
  : Res unit * FacebookFeedWidget * World :=
  match loadFeed_begin isRefresh wd with
  | Ignored => (Ok tt, wd, w)
  | Crashed wd' e => (Throw e, wd', w)
  | Started wd' =>
      let (outcome, w') := Api.fetchFeed (apiUrl (options (config wd'))) w in
      loadFeed_settle outcome wd' w'
  end.

Definition destroy (wd : FacebookFeedWidget) : FacebookFeedWidget :=
  set_view Blank (set_observed false wd).

(** *** The instance in the event loop

    Between the call of [fetchFeed] and its settlement the page keeps
    delivering events to the instance. *)
Record System : Type := {
  widget : FacebookFeedWidget;
  world : World;
  inflight : list (Res Api.FeedResult)   (* calls of [fetchFeed] not yet settled *)
}.

Inductive Action : Type :=
| CallLoadFeed (isRefresh : bool)    (* a click on Refresh, or any caller *)
| Intersect (isIntersecting : bool)  (* the IntersectionObserver callback *)
| Settle                             (* the oldest pending [fetchFeed] settles *)
| CallGoToPage (page : Z)
| CallDestroy.

Definition call_loadFeed (isRefresh : bool) (s : System) : System :=
  match loadFeed_begin isRefresh (widget s) with
  | Ignored => s
  | Crashed wd' _ => {| widget := wd'; world := world s; inflight := inflight s |}
  | Started wd' =>
      let (outcome, w') := Api.fetchFeed (apiUrl (options (config wd'))) (world s) in
      {| widget := wd'; world := w'; inflight := inflight s ++ [outcome] |}
  end.

Definition step (a : Action) (s : System) : System :=
  match a with
  | CallLoadFeed isRefresh => call_loadFeed isRefresh s
  | Intersect isIntersecting =>
      if observed (widget s) && isIntersecting && negb (isLoading (widget s))
         && (length (posts (widget s)) =? 0)%nat
      then
        let s' := call_loadFeed false s in
        {| widget := set_observed false (widget s'); world := world s';
           inflight := inflight s' |}
      else s
  | Settle =>
      match inflight s with
      | [] => s
      | outcome :: rest =>
          let '(_, wd', w') := loadFeed_settle outcome (widget s) (world s) in
          {| widget := wd'; world := w'; inflight := rest |}
      end
  | CallGoToPage page =>
      {| widget := goToPage page (widget s); world := world s; inflight := inflight s |}
  | CallDestroy =>
      {| widget := destroy (widget s); world := world s; inflight := inflight s |}
  end.

Definition run (actions : list Action) (s : System) : System :=
  fold_left (fun s a => step a s) actions s.

Definition boot (raw : RawOptions) (w : World) : System :=
  {| widget := create raw; world := w; inflight := [] |}.

End Widget.

(** ** Observations used in the statements *)

(** The URLs requested and the back-off delays waited, oldest first. *)
Definition requests (tr : list Event) : list string :=
  omap (fun e => match e with Fetch url => Some url | _ => None end) tr.

Definition waits (tr : list Event) : list Z :=
  omap (fun e => match e with Wait ms => Some ms | _ => None end) tr.

(** What one attempt of [fetchWithRetry] makes of the answer it gets: the
    posts, or the error its [try] block throws. *)
Definition attempt_result (r : Reply) : Res json :=
  match r with
  | Rejected latency reason =>
      if latency <? Api.API_TIMEOUT then Throw {| error_message := reason |}
      else Throw {| error_message := Api.abort_message |}
  | Response latency status body =>
      if latency <? Api.API_TIMEOUT then
        if Api.response_ok status then
          match body with
          | JsonBody v => Ok v
          | BadBody reason => Throw {| error_message := reason |}
          end
        else if (400 <=? status) && (status <? 500)
             then Throw {| error_message := "API error: " +:+ Dec.Z_string status |}
             else Throw {| error_message := "HTTP " +:+ Dec.Z_string status |}
      else Throw {| error_message := Api.abort_message |}
  end.

Definition failed {A} (r : Res A) : Prop :=
  match r with Ok _ => False | Throw _ => True end.

(** The cache entry a world holds: both items present and not empty, the
    posts item well-formed JSON, the store accessible. *)
Definition cache_entry (w : World) : option Api.Cached :=
  if storage_denied w then None
  else
    match storage w !! Api.CACHE_KEY, storage w !! Api.CACHE_TIME_KEY with
    | Some d, Some t =>
        if truthy (Some d) && truthy (Some t) then
          match Json.parse d with
          | Some v => Some {| Api.cached_data := v; Api.cached_timestamp := Dates.parse t |}
          | None => None
          end
        else None
    | _, _ => None
    end.

(** The hosts on which [getApiUrl] swaps the endpoint for the mock file. *)
Definition on_localhost (w : World) : Prop :=
  hostname w = "localhost"%string \/ hostname w = "127.0.0.1"%string
  \/ hostname w = EmptyString.

(** Everything of the world that the code of [src/api.js] never writes. *)
Definition same_host (w w' : World) : Prop :=
  hostname w' = hostname w /\ localTZA w' = localTZA w
  /\ network w' = network w /\ storage_denied w' = storage_denied w.

(** A failure the retry policy calls transient: no answer, no answer in
    time, or a 5xx answer. *)
Definition transient (r : Reply) : Prop :=
  match r with
  | Rejected _ _ => True
  | Response latency status _ => Api.API_TIMEOUT <= latency \/ 500 <= status <= 599
  end.

(** The pagination invariant of an instance. *)
Definition page_in_range (wd : Widget.FacebookFeedWidget) : Prop :=
  1 <= Widget.currentPage wd <= Z.max 1 (Widget.totalPages wd).

(** At most one [loadFeed] is between its call of [fetchFeed] and the
    settlement, and [isLoading] is set while one is. *)
Definition single_flight (s : Widget.System) : Prop :=
  (length (Widget.inflight s) <= 1)%nat
  /\ (Widget.inflight s <> [] -> Widget.isLoading (Widget.widget s) = true).

(** [p] occurs in [s] as a substring. *)
Definition contains (s p : string) : Prop :=
  exists before after, str s = before ++ str p ++ after.

(** The message of a post, the empty string when it has none. *)
Definition message_text (post : Post) : string :=
  match message post with Some m => m | None => EmptyString end.

(** The message contains one keyword at least, letter case set aside. *)
Definition mentions (keywords : list string) (post : Post) : Prop :=
  exists k, In k keywords
    /\ contains (Str.toLowerCase (message_text post)) (Str.toLowerCase k).

(** Where a number may end: not before a digit, a point or an exponent. *)
Definition number_end (rest : list ascii) : Prop :=
  match rest with
  | [] => True
  | c :: _ =>
      Dec.is_digit c = false /\ code c <> 46%N /\ code c <> 101%N /\ code c <> 69%N
  end.

(** The number of nodes of a value: a bound on the fuel its text needs. *)
Fixpoint json_size (v : json) : nat :=
  match v with
  | JArr items => S (list_sum (List.map json_size items))
  | JObj members => S (list_sum (List.map (fun kv => json_size (snd kv)) members))
  | _ => 1
  end.

(** [f] holds of the [n] integers from [i] on. *)
Fixpoint all_from (n : nat) (f : Z -> bool) (i : Z) : bool :=
  match n with
  | O => true
  | S n' => f i && all_from n' f (i + 1)
  end.

(** A day of the era is turned into a date of the calendar, and that date
    back into the same day. *)
Definition era_day_ok (doe : Z) : bool :=
  let '(y0, m, d) := Dates.civil_of_doe doe in
  let yoe := if m <=? 2 then y0 - 1 else y0 in
  (1 <=? m) && (m <=? 12) && (1 <=? d) && (d <=? Dates.days_in_month y0 m)
  && (0 <=? yoe) && (yoe <? 400) && (Dates.doe_of_civil yoe m d =? doe).

(** ** Sample data for the examples *)

Module Sample.

Definition post (i time text : string) : Post :=
  {| id := i; created_time := time; message := Some text |}.

Definition fire : Post := post "1" "2025-12-01T09:01:23+0000" "a fire today".
Definition calm : Post := post "2" "2025-12-02T09:01:23+0000" "calm seas".
Definition cyclone : Post := post "3" "2025-12-03T09:01:23+0000" "Cyclone warning".
Definition undated : Post := post "4" "not a date" "no date".

Definition feed : json := Posts.feed_json [fire; calm; cyclone].

Definition endpoint : string := "https://example.org/feed".

Definition utc (t : Z) (isUTC : bool) : Z := 0.

(** A network that answers 503, 503 and then 200 with the feed. *)
Definition flaky (n : nat) (url : string) : Reply :=
  match n with
  | 0%nat | 1%nat => Response 120 503 (BadBody "Service Unavailable")
  | _ => Response 80 200 (JsonBody feed)
  end.

(** A network that answers 404 to every request. *)
Definition missing (n : nat) (url : string) : Reply :=
  Response 40 404 (BadBody "Not Found").

(** A network that is down. *)
Definition down (n : nat) (url : string) : Reply := Rejected 15 "Failed to fetch".

Definition world (host : string) (net : nat -> string -> Reply)
    (items : gmap string string) (faults : list bool) : World :=
  {| hostname := host; localTZA := utc; clock := 1765789283123;
     storage := items; storage_denied := false; storage_faults := faults;
     network := net; sent := 0; trace := [] |}.

Definition no_options : Widget.RawOptions :=
  {| Widget.raw_apiUrl := None; Widget.raw_itemsPerPage := None;
     Widget.raw_fallbackUrl := None; Widget.raw_theme := None;
     Widget.raw_title := None; Widget.raw_content := None;
     Widget.raw_fallbackMessage := None; Widget.raw_filterKeywords := None;
     Widget.raw_startDate := None; Widget.raw_endDate := None |}.

Definition keyword_options : Widget.RawOptions :=
  {| Widget.raw_apiUrl := None; Widget.raw_itemsPerPage := None;
     Widget.raw_fallbackUrl := None; Widget.raw_theme := None;
     Widget.raw_title := None; Widget.raw_content := None;
     Widget.raw_fallbackMessage := None;
     Widget.raw_filterKeywords := Some "fire;cyclone"%string;
     Widget.raw_startDate := None; Widget.raw_endDate := None |}.

Definition date_options : Widget.RawOptions :=
  {| Widget.raw_apiUrl := None; Widget.raw_itemsPerPage := Some "2"%string;
     Widget.raw_fallbackUrl := None; Widget.raw_theme := None;
     Widget.raw_title := None; Widget.raw_content := None;
     Widget.raw_fallbackMessage := None; Widget.raw_filterKeywords := None;
     Widget.raw_startDate := Some "2025-11-15"%string;
     Widget.raw_endDate := Some "2025-12-02"%string |}.

(** An instance showing five posts, two to a page, on page 3. *)
Definition five_posts : Widget.FacebookFeedWidget :=
  {| Widget.config := Widget.configure date_options;
     Widget.posts := [fire; calm; cyclone; undated; fire];
     Widget.currentPage := 3; Widget.isLoading := false; Widget.observed := false;
     Widget.fromCache := false; Widget.cacheTimestamp := None;
     Widget.view := Widget.Blank; Widget.renders := 0; Widget.scrolls := 0 |}.

End Sample.

(** ** The text of a post, [formatMessage] in [src/widget.js] *)

Module Render.

(** [s.replace(/c/g, text)] for a pattern of one character: every
    occurrence, from left to right. *)
Definition replace_all (c : ascii) (text : string) (s : string) : string :=
  unstr (flat_map (fun x => if decide (x = c) then str text else [x]) (str s)).

Definition formatMessage (message : string) : string :=
  replace_all (chr 10) "<br>"
    (replace_all "'"%char "&#039;"
       (replace_all dquote "&quot;"
          (replace_all ">"%char "&gt;"
             (replace_all "<"%char "&lt;"
                (replace_all "&"%char "&amp;" message))))).

End Render.

(** ** The built bundle

    The bundle that ships with the sources is a later build of the
    widget: it sends the date range to the server and links the pages
    by number. *)

Module Bundle.

(** [s.padStart(w, c)] for a pad of one character. *)
Definition padStart (w : nat) (c : ascii) (s : chars) : chars :=
  repeat c (w - length s) ++ s.

(** [formatDateForApi(date)]: the local calendar day as YYYY-MM-DD; the
    fields of an Invalid Date are NaN. *)
Definition formatDateForApi (LocalTZA : Z -> bool -> Z) (date : Date) : string :=
  match date with
  | None => "NaN-NaN-NaN"
  | Some t =>
      let '(year, month, day) :=
        Dates.civil_from_days ((t + LocalTZA t true) / Dates.msPerDay) in
      unstr (Dec.Z_chars year
             ++ "-"%char :: padStart 2 "0"%char (Dec.Z_chars month)
             ++ "-"%char :: padStart 2 "0"%char (Dec.Z_chars day))
  end.

Definition maxVisiblePages : Z := 5.

(** The page numbers [renderPagination] links, in order. *)
Definition page_links (currentPage totalPages : Z) : list Z :=
  let startPage := Z.max 1 (currentPage - maxVisiblePages / 2) in
  let endPage := Z.min totalPages (startPage + maxVisiblePages - 1) in
  let startPage :=
    if endPage - startPage <? maxVisiblePages - 1
    then Z.max 1 (endPage - maxVisiblePages + 1)
    else startPage in
  List.map (fun i => startPage + Z.of_nat i) (seq 0 (Z.to_nat (endPage - startPage + 1))).

End Bundle.

(** ** src/index.js *)

Module Index.







End Index.

(** ** Further observations *)

(** The time an answer takes. *)
Definition latency (r : Reply) : Z :=
  match r with
  | Rejected l _ => l
  | Response l _ _ => l
  end.

(** The time one attempt takes: the latency of the answer, or
    [API_TIMEOUT] when the abort timer fires first. *)
Definition duration (r : Reply) : Z :=
  if latency r <? Api.API_TIMEOUT then latency r else Api.API_TIMEOUT.

(** The requests and the waits of a trace in the order they were made,
    the console left out. *)
Definition schedule (tr : list Event) : list Event :=
  List.filter (fun e => match e with Console _ _ => false | _ => true end) tr.

(** The schedule of a call that needs all its attempts: each wait stands
    between the attempt that failed and the next one. *)
Definition backoff_plan (url : string) : list Event :=
  [Fetch url; Wait 1000; Fetch url; Wait 2000; Fetch url].

Definition total (l : list Z) : Z := foldr Z.add 0 l.

(** The world when [await fetch(url, ...)] settles: the request is on the
    trace and the clock has moved by the latency of the answer, or by
    [API_TIMEOUT] when the abort timer fires first. *)
Definition after_fetch (url : string) (w : World) : World :=
  let l := latency (network w (sent w) url) in
  advance (if l <? Api.API_TIMEOUT then l else Api.API_TIMEOUT)
          (count_request (emit (Fetch url) w)).

(** A network whose answers take a minute. *)
Definition hanging (n : nat) (url : string) : Reply :=
  Response 60000 200 (JsonBody Sample.feed).

(** The posts a view shows. *)
Definition shown (v : Widget.View) : list Post :=
  match v with
  | Widget.Feed _ pagePosts _ _ => pagePosts
  | _ => []
  end.

(** The page numbers 1, ..., n. *)
Definition page_numbers (n : Z) : list Z :=
  List.map Z.of_nat (seq 1 (Z.to_nat n)).

(** An instance whose first [loadFeed] threw before its [try]: the flag
    [isLoading] is set, nothing is on display, and no [fetchFeed] runs. *)
Definition stuck (w : World) (s : Widget.System) : Prop :=
  Widget.isLoading (Widget.widget s) = true
  /\ Widget.view (Widget.widget s) = Widget.Blank
  /\ Widget.posts (Widget.widget s) = []
  /\ Widget.inflight s = []
  /\ Widget.world s = w.

(** Options that set [itemsPerPage] and nothing else. *)
Definition page_size_options (text : string) : Widget.RawOptions :=
  {| Widget.raw_apiUrl := None; Widget.raw_itemsPerPage := Some text;
     Widget.raw_fallbackUrl := None; Widget.raw_theme := None;
     Widget.raw_title := None; Widget.raw_content := None;
     Widget.raw_fallbackMessage := None; Widget.raw_filterKeywords := None;
     Widget.raw_startDate := None; Widget.raw_endDate := None |}.

(** The same configuration without its date filter. *)
Definition without_dates (c : Widget.Config) : Widget.Config :=
  {| Widget.options := Widget.options c; Widget.filterKeywords := Widget.filterKeywords c;
     Widget.startDate := None; Widget.endDate := None |}.

(** A date filter, an Invalid Date taken for none. *)
Definition valid_date (d : option Date) : option Date :=
  match d with
  | Some None => None
  | _ => d
  end.

(** The same configuration without the date filters that are an
    Invalid Date. *)
Definition without_invalid_dates (c : Widget.Config) : Widget.Config :=
  {| Widget.options := Widget.options c; Widget.filterKeywords := Widget.filterKeywords c;
     Widget.startDate := valid_date (Widget.startDate c);
     Widget.endDate := valid_date (Widget.endDate c) |}.

(** A text that cannot be JSON by its first character: after its white
    space it is empty, or begins with a character that begins no JSON
    value (not a digit, a minus, a quote, a bracket, a brace, nor the
    first letter of true, false or null). *)
Definition starts_no_value (text : string) : Prop :=
  match Json.skip_ws (str text) with
  | [] => True
  | c :: _ =>
      Dec.is_digit c = false
      /\ ~ In c [dquote; "-"%char; "["%char; "{"%char; "t"%char; "f"%char; "n"%char]
  end.

(** The same configuration without its keywords. *)
Definition without_keywords (c : Widget.Config) : Widget.Config :=
  {| Widget.options := Widget.options c; Widget.filterKeywords := None;
     Widget.startDate := Widget.startDate c; Widget.endDate := Widget.endDate c |}.

(** The time zone of a host at a fixed offset from UTC, in ms. *)
Definition fixed_offset (off : Z) (t : Z) (isUTC : bool) : Z := off.

(** A text of separators and white space only. *)
Definition blank_keywords (text : string) : Prop :=
  Forall (fun c => c = ";"%char \/ Str.is_space c = true) (str text).

(** What becomes of one character of a message. *)
Definition escaped (c : ascii) : chars :=
  if decide (c = "&"%char) then str "&amp;"
  else if decide (c = "<"%char) then str "&lt;"
  else if decide (c = ">"%char) then str "&gt;"
  else if decide (c = dquote) then str "&quot;"
  else if decide (c = "'"%char) then str "&#039;"
  else if decide (c = chr 10) then str "<br>"
  else [c].

(** HTML text that opens no tag but [<br>] and holds no quote: every
    [<] begins a [<br>], and no [>] stands elsewhere. *)
Fixpoint inert (s : chars) : bool :=
  match s with
  | [] => true
  | c :: r =>
      if decide (c = "<"%char) then
        match r with
        | c1 :: c2 :: c3 :: r' =>
            if decide (c1 = "b"%char) then
              if decide (c2 = "r"%char) then
                if decide (c3 = ">"%char) then inert r' else false
              else false
            else false
        | _ => false
        end
      else if decide (c = ">"%char) then false
      else if decide (c = dquote) then false
      else if decide (c = "'"%char) then false
      else inert r
  end.


(** [prevDisabled] and [nextDisabled] of [renderPagination], read off the
    view; [None] where no pagination is shown. *)
Definition prevDisabled (v : Widget.View) : option bool :=
  match v with
  | Widget.Feed _ _ (Some (currentPage, _)) _ => Some (currentPage =? 1)
  | _ => None
  end.

Definition nextDisabled (v : Widget.View) : option bool :=
  match v with
  | Widget.Feed _ _ (Some (currentPage, totalPages)) _ => Some (currentPage =? totalPages)
  | _ => None
  end.

(** The text [showError] shows. *)
Definition fallback_text (wd : Widget.FacebookFeedWidget) : string :=
  match Widget.fallbackMessage (Widget.options (Widget.config wd)) with
  | Some m => m
  | None => "Unable to load posts at this time."
  end.

(** The same page with another localStorage. *)
Definition with_store (items : gmap string string) (denied : bool) (faults : list bool)
    (w : World) : World :=
  {| hostname := hostname w; localTZA := localTZA w; clock := clock w; storage := items;
     storage_denied := denied; storage_faults := faults;
     network := network w; sent := sent w; trace := trace w |}.

(** [fetchFeed] settled with posts it has just fetched. *)
Definition served_fresh (r : Res Api.FeedResult) : Prop :=
  match r with
  | Ok res => Api.fromCache res = false
  | Throw _ => False
  end.

(** Closes the frame conditions of a world the code has only read. *)
Ltac frame :=
  repeat match goal with H : same_host _ _ |- _ => destruct H as (?&?&?&?) end;
  repeat split; simpl in *; try congruence; try lia; try done.

(* ===================================================================== *)
(** * Part II. Theorems                                                   *)
(* ===================================================================== *)

(** ** The retry loop of [fetchWithRetry] *)


Section RetryLoop.
Import Api.

Lemma requests_app a b : requests (a ++ b) = requests a ++ requests b.
Proof. apply omap_app. Qed.

Lemma waits_app a b : waits (a ++ b) = waits a ++ waits b.
Proof. apply omap_app. Qed.

Lemma same_host_refl w : same_host w w.
Proof. by repeat split. Qed.

Lemma same_host_trans w1 w2 w3 : same_host w1 w2 -> same_host w2 w3 -> same_host w1 w3.
Proof.
  intros (?&?&?&?) (?&?&?&?). repeat split; congruence.
Qed.

(** A write to localStorage touches the store and nothing else. *)
Lemma setItem_frame key value w r w' :
  setItem key value w = (r, w') ->
  same_host w w' /\ sent w' = sent w /\ clock w' = clock w /\ trace w' = trace w.
Proof.
  unfold setItem. intros H.
  destruct (storage_denied w) eqn:Hd.
  - inversion H; subst. split; [apply same_host_refl | done].
  - destruct (storage_faults w) as [|[] faults]; inversion H; subst; by repeat split.
Qed.

(** [saveToCache] never throws, makes no request and takes no time. *)
Lemma saveToCache_frame data w :
  exists w', saveToCache data w = (Ok tt, w')
    /\ same_host w w' /\ sent w' = sent w /\ clock w' = clock w
    /\ requests (trace w') = requests (trace w)
    /\ waits (trace w') = waits (trace w).
Proof.
  unfold saveToCache, try_catch, bind.
  destruct (setItem CACHE_KEY (Json.stringify data) w) as [[[]|e] w1] eqn:H1;
    apply setItem_frame in H1 as (Hh1 & Hs1 & Hc1 & Ht1).
  - unfold Date_now.
    destruct (setItem CACHE_TIME_KEY (Dates.toISOString (clock w1)) w1)
      as [[[]|e] w2] eqn:H2;
      apply setItem_frame in H2 as (Hh2 & Hs2 & Hc2 & Ht2).
    + exists w2. split; [done|]. split; [by eapply same_host_trans|].
      repeat split; congruence.
    + eexists. split; [reflexivity|]. simpl.
      split; [destruct Hh1 as (?&?&?&?), Hh2 as (?&?&?&?); repeat split; simpl; congruence|].
      rewrite requests_app, waits_app, Ht2, Ht1; simpl.
      rewrite !app_nil_r. repeat split; congruence.
  - eexists. split; [reflexivity|]. simpl.
    split; [destruct Hh1 as (?&?&?&?); repeat split; simpl; congruence|].
    rewrite requests_app, waits_app, Ht1; simpl.
    rewrite !app_nil_r. repeat split; congruence.
Qed.

(** One attempt: one request, answered as [attempt_result] says. *)
Lemma attempt_once_spec url w :
  exists w', attempt_once url w = (attempt_result (network w (sent w) url), w')
    /\ same_host w w' /\ sent w' = S (sent w)
    /\ requests (trace w') = requests (trace w) ++ [url]
    /\ waits (trace w') = waits (trace w).
Proof.
  unfold attempt_once, bind, fetch, attempt_result.
  destruct (network w (sent w) url) as [latency reason | latency status body].
  - destruct (latency <? API_TIMEOUT); eexists; (split; [reflexivity|]); simpl;
      rewrite requests_app, waits_app; simpl; rewrite ?app_nil_r;
      repeat split; done.
  - destruct (latency <? API_TIMEOUT); simpl.
    2:{ eexists; (split; [reflexivity|]); simpl.
        rewrite requests_app, waits_app; simpl; rewrite ?app_nil_r.
        repeat split; done. }
    destruct (response_ok status); simpl.
    2:{ destruct ((400 <=? status) && (status <? 500)); eexists;
          (split; [reflexivity|]); simpl;
          rewrite requests_app, waits_app; simpl; rewrite ?app_nil_r;
          repeat split; done. }
    destruct body as [v | reason]; simpl.
    2:{ eexists; (split; [reflexivity|]); simpl.
        rewrite requests_app, waits_app; simpl; rewrite ?app_nil_r.
        repeat split; done. }
    unfold response_json, ret at 1.
    match goal with |- context [saveToCache v ?w0] =>
      destruct (saveToCache_frame v w0) as (w' & Hs & Hh & Hsent & Hclock & Hreq & Hwait)
    end.
    rewrite Hs. unfold ret. exists w'. split; [done|].
    destruct Hh as (?&?&?&?). simpl in *.
    rewrite Hreq, Hwait, requests_app, waits_app. simpl. rewrite ?app_nil_r.
    repeat split; done.
Qed.

Lemma take_drop_step {A} (l : list A) (a k : nat) :
  match l !! a with Some d => [d] | None => [] end ++ take k (drop (S a) l)
  = take (S k) (drop a l).
Proof.
  destruct (l !! a) as [d|] eqn:Hl.
  - by rewrite (drop_S _ _ _ Hl).
  - apply lookup_ge_None in Hl.
    rewrite !drop_ge by lia. by rewrite !take_nil.
Qed.

(** The whole loop: it stops at the first attempt that succeeds, or at
    attempt [retries]; [k] counts the attempts that failed before the
    one that decides the call. *)
Lemma fetchWithRetry_loop_spec url retries left : forall w,
  (left <= retries)%nat ->
  exists (k : nat) w', (k <= left)%nat
    /\ fetchWithRetry_loop url retries left w
       = (attempt_result (network w (sent w + k)%nat url), w')
    /\ (forall j, (j < k)%nat -> failed (attempt_result (network w (sent w + j)%nat url)))
    /\ (failed (attempt_result (network w (sent w + k)%nat url)) -> k = left)
    /\ same_host w w' /\ sent w' = (sent w + S k)%nat
    /\ requests (trace w') = requests (trace w) ++ replicate (S k) url
    /\ waits (trace w') = waits (trace w) ++ take k (drop (retries - left) delays).
Proof.
  induction left as [|left IH]; intros w Hle.
  - destruct (attempt_once_spec url w) as (w1 & Hrun & Hh & Hsent & Hreq & Hwait).
    simpl. unfold try_catch. rewrite Hrun.
    destruct (attempt_result (network w (sent w) url)) as [v|e] eqn:Hres.
    + exists 0%nat, w1. rewrite Nat.add_0_r, Hres. simpl.
      rewrite app_nil_r. frame.
    + exists 0%nat. eexists. rewrite Nat.add_0_r, Hres.
      split; [lia|]. split; [reflexivity|]. simpl.
      rewrite requests_app, waits_app. simpl. rewrite !app_nil_r.
      frame.
  - destruct (attempt_once_spec url w) as (w1 & Hrun & Hh & Hsent & Hreq & Hwait).
    simpl fetchWithRetry_loop. unfold try_catch. rewrite Hrun.
    destruct (attempt_result (network w (sent w) url)) as [v|e] eqn:Hres.
    + exists 0%nat, w1. rewrite Nat.add_0_r, Hres. simpl.
      rewrite app_nil_r. frame.
    + unfold bind at 1.
      set (a := (retries - S left)%nat).
      assert (exists w2, (match delays !! a with Some d => sleep d | None => ret tt end) w1
                         = (Ok tt, w2)
                /\ same_host w1 w2 /\ sent w2 = sent w1
                /\ requests (trace w2) = requests (trace w1)
                /\ waits (trace w2)
                   = waits (trace w1) ++ match delays !! a with Some d => [d] | None => [] end)
        as (w2 & Hsleep & Hh2 & Hsent2 & Hreq2 & Hwait2).
      { destruct (delays !! a) as [d|].
        - eexists. split; [reflexivity|]. simpl.
          rewrite requests_app, waits_app. simpl. rewrite app_nil_r.
          repeat split; done.
        - exists w1. rewrite app_nil_r. repeat split; done. }
      rewrite Hsleep.
      destruct (IH w2 ltac:(lia)) as (k & w' & Hk & Hloop & Hfail & Hlast & Hh' & Hsent' & Hreq' & Hwait').
      assert (Hnet : network w2 = network w).
      { destruct Hh as (?&?&?&?), Hh2 as (?&?&?&?). congruence. }
      assert (Hidx : forall j, (sent w2 + j)%nat = (sent w + S j)%nat) by (intros; lia).
      rewrite Hnet in Hloop, Hfail, Hlast.
      exists (S k), w'. split; [lia|].
      split; [by rewrite Hloop, Hidx|].
      split.
      { intros [|j] Hj.
        - rewrite Nat.add_0_r, Hres. exact I.
        - rewrite <- Hidx. apply Hfail. lia. }
      split; [rewrite <- Hidx; intros Hf; f_equal; by apply Hlast|].
      split; [eapply same_host_trans; [|exact Hh']; eapply same_host_trans; eauto|].
      split; [lia|].
      split.
      { rewrite Hreq', Hreq2, Hreq, <- app_assoc. done. }
      rewrite Hwait', Hwait2, Hwait, <- app_assoc. f_equal.
      replace (retries - left)%nat with (S a) by (unfold a; lia).
      apply take_drop_step.
Qed.

End RetryLoop.

Section Fetcher.
Import Api.

Lemma transient_failed r : transient r -> failed (attempt_result r).
Proof.
  destruct r as [latency reason | latency status body]; simpl.
  - intros _. by destruct (latency <? API_TIMEOUT).
  - intros H. destruct (latency <? API_TIMEOUT) eqn:Hl; [|done].
    apply Z.ltb_lt in Hl. destruct H as [H|H]; [lia|].
    unfold response_ok.
    destruct (200 <=? status) eqn:H1, (status <=? 299) eqn:H2; simpl;
      try (by destruct ((400 <=? status) && (status <? 500))).
    apply Z.leb_le in H2. lia.
Qed.

(** [fetchWithRetry(url)] with the default [retries = 2], in terms of
    the three answers the network has in store. *)
Lemma fetchWithRetry_spec url w :
  exists (k : nat) w', (k <= 2)%nat
    /\ fetchWithRetry url 2 w = (attempt_result (network w (sent w + k)%nat url), w')
    /\ (forall j, (j < k)%nat -> failed (attempt_result (network w (sent w + j)%nat url)))
    /\ (failed (attempt_result (network w (sent w + k)%nat url)) -> k = 2%nat)
    /\ same_host w w' /\ sent w' = (sent w + S k)%nat
    /\ requests (trace w') = requests (trace w) ++ replicate (S k) url
    /\ waits (trace w') = waits (trace w) ++ take k [1000; 2000].
Proof.
  destruct (fetchWithRetry_loop_spec url 2 2 w ltac:(lia))
    as (k & w' & ? & ? & ? & ? & ? & ? & ? & Hw).
  exists k, w'. simpl in Hw. split_and!; done.
Qed.

(** One attempt, with the world it leaves: after a failure the world of
    [after_fetch], after a success that world with the posts saved. *)
Lemma attempt_once_world url w :
  attempt_once url w
  = match attempt_result (network w (sent w) url) with
    | Ok v => (Ok v, snd (saveToCache v (after_fetch url w)))
    | Throw e => (Throw e, after_fetch url w)
    end.
Proof.
  unfold attempt_once, bind, fetch, attempt_result, after_fetch, latency.
  destruct (network w (sent w) url) as [l reason | l status body];
    destruct (l <? API_TIMEOUT); try reflexivity.
  simpl. destruct (response_ok status); simpl.
  - destruct body as [v|reason]; simpl; [|reflexivity].
    unfold ret at 1.
    match goal with |- context [saveToCache v ?w0] =>
      destruct (saveToCache_frame v w0) as (w' & -> & _)
    end.
    reflexivity.
  - destruct ((400 <=? status) && (status <? 500)); reflexivity.
Qed.

Lemma after_fetch_fields url w :
  storage (after_fetch url w) = storage w
  /\ storage_faults (after_fetch url w) = storage_faults w
  /\ storage_denied (after_fetch url w) = storage_denied w
  /\ network (after_fetch url w) = network w
  /\ sent (after_fetch url w) = S (sent w).
Proof. done. Qed.

Lemma schedule_app a b : schedule (a ++ b) = schedule a ++ schedule b.
Proof. apply List.filter_app. Qed.

Lemma requests_schedule tr : requests (schedule tr) = requests tr.
Proof.
  induction tr as [|[] tr IH]; simpl; [done| | |done]; unfold requests in *; simpl;
    by rewrite ?IH.
Qed.

Lemma waits_schedule tr : waits (schedule tr) = waits tr.
Proof.
  induction tr as [|[] tr IH]; simpl; [done| | |done]; unfold waits in *; simpl;
    by rewrite ?IH.
Qed.

(** [saveToCache] adds nothing but console lines to the trace. *)
Lemma saveToCache_schedule data w :
  schedule (trace (snd (saveToCache data w))) = schedule (trace w).
Proof.
  unfold saveToCache, try_catch, bind.
  destruct (setItem CACHE_KEY (Json.stringify data) w) as [[[]|e] w1] eqn:H1;
    apply setItem_frame in H1 as (_ & _ & _ & Ht1).
  - unfold Date_now.
    destruct (setItem CACHE_TIME_KEY (Dates.toISOString (clock w1)) w1)
      as [[[]|e] w2] eqn:H2;
      apply setItem_frame in H2 as (_ & _ & _ & Ht2); simpl.
    + congruence.
    + rewrite schedule_app, Ht2, Ht1. simpl. by rewrite app_nil_r.
  - simpl. rewrite schedule_app, Ht1. simpl. by rewrite app_nil_r.
Qed.

(** One attempt on the time line: the request, then the time it takes. *)
Lemma attempt_once_timeline url w :
  exists w', attempt_once url w = (attempt_result (network w (sent w) url), w')
    /\ schedule (trace w') = schedule (trace w) ++ [Fetch url]
    /\ clock w' = clock w + duration (network w (sent w) url)
    /\ network w' = network w /\ sent w' = S (sent w).
Proof.
  rewrite attempt_once_world.
  assert (Hafter : schedule (trace (after_fetch url w)) = schedule (trace w) ++ [Fetch url]
                   /\ clock (after_fetch url w) = clock w + duration (network w (sent w) url)).
  { unfold after_fetch, duration. simpl. by rewrite schedule_app. }
  destruct Hafter as [Hschedule Hclock].
  destruct (attempt_result (network w (sent w) url)) as [v|e].
  - eexists. split; [reflexivity|].
    destruct (saveToCache_frame v (after_fetch url w))
      as (w1 & Hsave & (_ & _ & Hnet & _) & Hsent & Hc & _).
    rewrite saveToCache_schedule, Hsave. simpl. rewrite Hc, Hnet, Hsent. done.
  - eexists. split; [reflexivity|]. done.
Qed.

(** The whole call on the time line: [k] failed attempts, each followed
    by its wait, and the attempt that decides. *)
Lemma fetchWithRetry_timeline url w :
  exists (k : nat) w', (k <= 2)%nat
    /\ fetchWithRetry url 2 w = (attempt_result (network w (sent w + k)%nat url), w')
    /\ (forall j, (j < k)%nat -> failed (attempt_result (network w (sent w + j)%nat url)))
    /\ (failed (attempt_result (network w (sent w + k)%nat url)) -> k = 2%nat)
    /\ schedule (trace w') = schedule (trace w) ++ take (2 * k + 1) (backoff_plan url)
    /\ clock w'
       = clock w
         + total (List.map (fun j => duration (network w (sent w + j)%nat url)) (seq 0 (S k)))
         + total (take k delays).
Proof.
  unfold fetchWithRetry. simpl fetchWithRetry_loop. unfold try_catch.
  destruct (attempt_once_timeline url w) as (w1 & H1 & Hs1 & Hc1 & Hn1 & Hsent1).
  rewrite H1.
  destruct (attempt_result (network w (sent w) url)) as [v0|e0] eqn:R0.
  { exists 0%nat, w1. rewrite Nat.add_0_r, R0.
    split_and!; try done; try lia.
    simpl. rewrite Nat.add_0_r, Hc1. unfold total. simpl. lia. }
  unfold bind at 1. simpl. unfold try_catch.
  match goal with |- context [attempt_once url ?w0] =>
    destruct (attempt_once_timeline url w0) as (w2 & H2 & Hs2 & Hc2 & Hn2 & Hsent2)
  end.
  simpl in H2, Hs2, Hc2, Hn2, Hsent2. rewrite H2.
  rewrite Hn1, Hsent1 in *.
  replace (S (sent w)) with (sent w + 1)%nat in * by lia.
  destruct (attempt_result (network w (sent w + 1)%nat url)) as [v1|e1] eqn:R1.
  { exists 1%nat, w2. rewrite R1. split_and!; try done; try lia.
    - intros j Hj. replace j with 0%nat by lia. by rewrite Nat.add_0_r, R0.
    - rewrite Hs2, schedule_app, Hs1. simpl. by rewrite <- !app_assoc.
    - rewrite Hc2, Hc1. unfold total. simpl. rewrite Nat.add_0_r. lia. }
  unfold bind at 1. simpl. unfold try_catch.
  match goal with |- context [attempt_once url ?w0] =>
    destruct (attempt_once_timeline url w0) as (w3 & H3 & Hs3 & Hc3 & Hn3 & Hsent3)
  end.
  simpl in H3, Hs3, Hc3, Hn3, Hsent3. rewrite H3.
  rewrite Hn2, Hsent2 in *.
  replace (S (sent w + 1)) with (sent w + 2)%nat in * by lia.
  assert (Hfailed : forall j, (j < 2)%nat ->
            failed (attempt_result (network w (sent w + j)%nat url))).
  { intros j Hj. destruct j as [|[|j]]; [by rewrite Nat.add_0_r, R0|by rewrite R1|lia]. }
  assert (Htime : clock w3
            = clock w
              + total (List.map (fun j => duration (network w (sent w + j)%nat url)) (seq 0 3))
              + total (take 2 delays)).
  { rewrite Hc3, Hc2, Hc1. unfold total. simpl. rewrite Nat.add_0_r. lia. }
  assert (Hplan : schedule (trace w3) = schedule (trace w) ++ backoff_plan url).
  { rewrite Hs3, !schedule_app, Hs2, !schedule_app, Hs1. simpl.
    by rewrite <- !app_assoc. }
  destruct (attempt_result (network w (sent w + 2)%nat url)) as [v2|e2] eqn:R2.
  - exists 2%nat, w3. rewrite R2. split_and!; done || lia.
  - exists 2%nat. eexists. rewrite R2. split; [done|]. split; [reflexivity|].
    simpl. rewrite schedule_app. simpl. rewrite app_nil_r. split_and!; done.
Qed.

(** C6. With the default [maxRetries = 2], [fetchWithRetry] makes at
    most 3 attempts and waits 1000 ms before the first retry and 2000 ms
    before the second: the requests and the waits alternate on the trace
    as in [backoff_plan], and the time the call takes is the time of its
    attempts and of its waits.  Answers 503, 503, 200 give the posts at
    the third attempt after waits of 1000 and 2000 ms; three transient
    failures make it throw the error of the third attempt, after exactly
    3 attempts. *)
Theorem fetchWithRetry_backoff url w :
  exists r w', fetchWithRetry url 2 w = (r, w')
    /\ (exists n : nat, (1 <= n <= 3)%nat
          /\ requests (trace w') = requests (trace w) ++ replicate n url
          /\ waits (trace w') = waits (trace w) ++ take (n - 1) [1000; 2000]
          /\ schedule (trace w') = schedule (trace w) ++ take (2 * n - 1) (backoff_plan url)
          /\ clock w'
             = clock w
               + total (List.map (fun j => duration (network w (sent w + j)%nat url))
                                 (seq 0 n))
               + total (take (n - 1) [1000; 2000]))
    /\ (forall l0 b0 l1 b1 l2 v,
          network w (sent w) url = Response l0 503 b0 -> l0 < API_TIMEOUT ->
          network w (sent w + 1)%nat url = Response l1 503 b1 -> l1 < API_TIMEOUT ->
          network w (sent w + 2)%nat url = Response l2 200 (JsonBody v) -> l2 < API_TIMEOUT ->
          r = Ok v
          /\ requests (trace w') = requests (trace w) ++ [url; url; url]
          /\ waits (trace w') = waits (trace w) ++ [1000; 2000]
          /\ schedule (trace w') = schedule (trace w) ++ backoff_plan url
          /\ clock w' = clock w + l0 + 1000 + l1 + 2000 + l2)
    /\ (transient (network w (sent w) url) ->
        transient (network w (sent w + 1)%nat url) ->
        transient (network w (sent w + 2)%nat url) ->
        r = attempt_result (network w (sent w + 2)%nat url)
        /\ failed r
        /\ requests (trace w') = requests (trace w) ++ [url; url; url]
        /\ waits (trace w') = waits (trace w) ++ [1000; 2000]
        /\ schedule (trace w') = schedule (trace w) ++ backoff_plan url
        /\ clock w' = clock w + duration (network w (sent w) url) + 1000
                      + duration (network w (sent w + 1)%nat url) + 2000
                      + duration (network w (sent w + 2)%nat url)).
Proof.
  destruct (fetchWithRetry_timeline url w)
    as (k & w' & Hk & Hrun & Hfail & Hlast & Hplan & Hclock).
  assert (Hreq : requests (trace w') = requests (trace w) ++ replicate (S k) url).
  { rewrite <- (requests_schedule (trace w')), Hplan, requests_app, requests_schedule.
    f_equal. by destruct k as [|[|[|k]]]; [| | |lia]. }
  assert (Hwait : waits (trace w') = waits (trace w) ++ take k [1000; 2000]).
  { rewrite <- (waits_schedule (trace w')), Hplan, waits_app, waits_schedule.
    f_equal. by destruct k as [|[|[|k]]]; [| | |lia]. }
  eexists _, w'. split; [exact Hrun|]. split; [|split].
  - exists (S k). split; [lia|].
    replace (2 * S k - 1)%nat with (2 * k + 1)%nat by lia.
    replace (S k - 1)%nat with k by lia. done.
  - intros l0 b0 l1 b1 l2 v H0 Hl0 H1 Hl1 H2 Hl2.
    assert (F0 : failed (attempt_result (network w (sent w + 0)%nat url))).
    { rewrite Nat.add_0_r, H0. simpl.
      destruct (l0 <? API_TIMEOUT); done. }
    assert (F1 : failed (attempt_result (network w (sent w + 1)%nat url))).
    { rewrite H1. simpl. destruct (l1 <? API_TIMEOUT); done. }
    assert (k = 2%nat) as ->.
    { destruct k as [|[|[|k]]]; [by apply Hlast in F0|by apply Hlast in F1|done|lia]. }
    rewrite Hclock. unfold total, duration. simpl. rewrite Nat.add_0_r.
    rewrite H0, H1, H2 in *. simpl.
    apply Z.ltb_lt in Hl0, Hl1, Hl2. rewrite Hl0, Hl1, Hl2.
    split_and!; try done. lia.
  - intros T0 T1 T2.
    assert (F0 : failed (attempt_result (network w (sent w + 0)%nat url))).
    { rewrite Nat.add_0_r. by apply transient_failed. }
    apply transient_failed in T1, T2.
    assert (k = 2%nat) as ->.
    { destruct k as [|[|[|k]]]; [by apply Hlast in F0|by apply Hlast in T1|done|lia]. }
    rewrite Hclock. unfold total. simpl. rewrite Nat.add_0_r.
    split_and!; try done. lia.
Qed.

(** A 4xx answer is caught by the [catch] of its own attempt like any
    other error, so the loop retries it. *)
Lemma fetchWithRetry_client_error url w status :
  (forall i, exists latency body,
      network w i url = Response latency status body /\ latency < API_TIMEOUT) ->
  400 <= status < 500 ->
  exists w', fetchWithRetry url 2 w
             = (Throw {| error_message := "API error: " +:+ Dec.Z_string status |}, w')
    /\ requests (trace w') = requests (trace w) ++ [url; url; url]
    /\ waits (trace w') = waits (trace w) ++ [1000; 2000].
Proof.
  intros Hnet Hst.
  assert (Hres : forall i, attempt_result (network w i url)
                 = Throw {| error_message := "API error: " +:+ Dec.Z_string status |}).
  { intros i. destruct (Hnet i) as (latency & body & -> & Hl). simpl.
    apply Z.ltb_lt in Hl. rewrite Hl. unfold response_ok.
    replace (status <=? 299) with false by (symmetry; apply Z.leb_gt; lia).
    rewrite andb_false_r.
    replace (400 <=? status) with true by (symmetry; apply Z.leb_le; lia).
    replace (status <? 500) with true by (symmetry; apply Z.ltb_lt; lia).
    done. }
  destruct (fetchWithRetry_spec url w)
    as (k & w' & Hk & Hrun & Hfail & Hlast & Hh & Hsent & Hreq & Hwait).
  rewrite Hres in Hrun, Hlast. rewrite (Hlast I) in *.
  exists w'. done.
Qed.

End Fetcher.

(** ** The feed accessor: [getFromCache], [getApiUrl], [fetchFeed] *)

Section Accessor.
Import Api.

(** [getFromCache] returns the cache entry of the store, never throws,
    and writes nothing but a console warning. *)
Lemma getFromCache_spec w :
  exists w', getFromCache w = (Ok (cache_entry w), w')
    /\ (is_Some (cache_entry w) -> w' = w)
    /\ same_host w w' /\ sent w' = sent w /\ clock w' = clock w
    /\ storage w' = storage w /\ storage_faults w' = storage_faults w
    /\ requests (trace w') = requests (trace w)
    /\ waits (trace w') = waits (trace w).
Proof.
  unfold getFromCache, cache_entry, try_catch, bind, getItem.
  destruct (storage_denied w) eqn:Hd.
  { eexists. split; [reflexivity|]. simpl.
    rewrite requests_app, waits_app. simpl. rewrite !app_nil_r.
    split; [by intros [? ?]|]. frame. }
  rewrite Hd.
  destruct (storage w !! CACHE_KEY) as [d|]; destruct (storage w !! CACHE_TIME_KEY) as [t|];
    try (exists w; split; [reflexivity|]; split; [done|]; frame).
  destruct (truthy (Some d) && truthy (Some t));
    try (exists w; split; [reflexivity|]; split; [done|]; frame).
  unfold JSON_parse. destruct (Json.parse d) as [v|].
  - exists w. split; [reflexivity|]. split; [done|]. frame.
  - eexists. split; [reflexivity|]. simpl.
    rewrite requests_app, waits_app. simpl. rewrite !app_nil_r.
    split; [by intros [? ?]|]. frame.
Qed.

Lemma getApiUrl_spec apiUrl w :
  exists w', getApiUrl apiUrl w
             = (Ok (if decide (on_localhost w) then "mock-data.json"%string else apiUrl), w')
    /\ same_host w w' /\ sent w' = sent w /\ clock w' = clock w
    /\ storage w' = storage w /\ storage_faults w' = storage_faults w
    /\ requests (trace w') = requests (trace w)
    /\ waits (trace w') = waits (trace w).
Proof.
  unfold getApiUrl, on_localhost.
  destruct (decide _).
  - eexists. split; [reflexivity|]. simpl.
    rewrite requests_app, waits_app. simpl. rewrite !app_nil_r. frame.
  - exists w. split; [reflexivity|]. frame.
Qed.

(** C1. [fetchFeed(url)] returns the fresh posts, not from the cache and
    stamped with the current time, when the live fetch succeeds; the cached
    posts with their timestamp and the failure's message when the live
    fetch fails and the store holds a cache entry; and it throws, the
    error of the live fetch, exactly when the live fetch fails and the
    store holds no cache entry. *)
Theorem fetchFeed_contract apiUrl w :
  exists url w1, getApiUrl apiUrl w = (Ok url, w1)
    /\ (forall posts w2,
          fetchWithRetry url 2 w1 = (Ok posts, w2) ->
          fetchFeed apiUrl w
          = (Ok {| data := posts; fromCache := false;
                   timestamp := Some (clock w2); error := None |}, w2))
    /\ (forall e w2 c,
          fetchWithRetry url 2 w1 = (Throw e, w2) ->
          cache_entry w2 = Some c ->
          fetchFeed apiUrl w
          = (Ok {| data := cached_data c; fromCache := true;
                   timestamp := cached_timestamp c;
                   error := Some (error_message e) |}, w2))
    /\ (forall e,
          (exists w', fetchFeed apiUrl w = (Throw e, w'))
          <-> (exists w2, fetchWithRetry url 2 w1 = (Throw e, w2)
                          /\ cache_entry w2 = None)).
Proof.
  destruct (getApiUrl_spec apiUrl w) as (w1 & Hurl & _).
  eexists _, w1. split; [exact Hurl|].
  unfold fetchFeed, try_catch, bind. rewrite Hurl.
  split; [|split].
  - intros posts w2 ->. done.
  - intros e w2 c -> Hc.
    destruct (getFromCache_spec w2) as (w3 & -> & Hsame & _).
    rewrite Hc in *. rewrite (Hsame ltac:(done)). done.
  - intros e. split.
    + intros [w' H].
      destruct (fetchWithRetry _ 2 w1) as [[posts|e0] w2]; [done|].
      destruct (getFromCache_spec w2) as (w3 & Hget & _).
      rewrite Hget in H.
      destruct (cache_entry w2) eqn:Hc; [done|].
      unfold throw in H. inversion H; subst. by exists w2.
    + intros (w2 & -> & Hc).
      destruct (getFromCache_spec w2) as (w3 & -> & _).
      rewrite Hc. by exists w3.
Qed.

(** C9. On the hosts "localhost", "127.0.0.1" and the empty host name
    every request of [fetchFeed] goes to "mock-data.json", whatever the
    configured URL; on every other host every request goes to the
    configured URL.  There is at least one request and at most three. *)
Theorem fetchFeed_endpoint apiUrl w :
  exists r w' (n : nat), fetchFeed apiUrl w = (r, w')
    /\ (1 <= n <= 3)%nat
    /\ (on_localhost w ->
        requests (trace w') = requests (trace w) ++ replicate n "mock-data.json"%string)
    /\ (~ on_localhost w ->
        requests (trace w') = requests (trace w) ++ replicate n apiUrl).
Proof.
  destruct (getApiUrl_spec apiUrl w)
    as (w1 & Hurl & Hh1 & Hs1 & _ & _ & _ & Hr1 & _).
  set (url := if decide (on_localhost w) then "mock-data.json"%string else apiUrl) in *.
  destruct (fetchWithRetry_spec url w1)
    as (k & w2 & Hk & Hrun & _ & _ & _ & _ & Hr2 & _).
  assert (Hreq : forall w3, requests (trace w3) = requests (trace w2) ->
            requests (trace w3) = requests (trace w) ++ replicate (S k) url)
    by (intros w3 ->; by rewrite Hr2, Hr1).
  assert (exists r w', fetchFeed apiUrl w = (r, w')
            /\ requests (trace w') = requests (trace w) ++ replicate (S k) url)
    as (r & w' & Hfeed & Hreq').
  { unfold fetchFeed, try_catch, bind. rewrite Hurl, Hrun.
    destruct (attempt_result _) as [posts|e].
    - eexists _, w2. split; [reflexivity|]. by apply Hreq.
    - destruct (getFromCache_spec w2) as (w3 & -> & _ & _ & _ & _ & _ & _ & Hr3 & _).
      destruct (cache_entry w2); eexists _, w3; (split; [reflexivity|]); by apply Hreq. }
  exists r, w', (S k). split; [exact Hfeed|]. split; [lia|].
  unfold url in Hreq'.
  split; intros Hloc; destruct (decide (on_localhost w)); done.
Qed.

End Accessor.

(** ** Pagination: [goToPage] *)

Section Pagination.
Import Widget.

Lemma ceil_div_spec a b : 0 < b -> (ceil_div a b - 1) * b < a <= ceil_div a b * b.
Proof.
  intros Hb. unfold ceil_div.
  pose proof (Z.div_mod (- a) b ltac:(lia)) as Hdm.
  pose proof (Z.mod_pos_bound (- a) b Hb) as Hm.
  nia.
Qed.

(** The ceiling of a quotient is the only integer between its bounds. *)
Lemma ceil_div_unique a b q : 0 < b -> (q - 1) * b < a <= q * b -> ceil_div a b = q.
Proof.
  intros Hb Hq. pose proof (ceil_div_spec a b Hb) as Hc. nia.
Qed.

Lemma render_fields wd :
  config (render wd) = config wd /\ posts (render wd) = posts wd
  /\ currentPage (render wd) = currentPage wd /\ isLoading (render wd) = isLoading wd.
Proof. done. Qed.

Lemma goToPage_fields page wd :
  config (goToPage page wd) = config wd /\ posts (goToPage page wd) = posts wd
  /\ isLoading (goToPage page wd) = isLoading wd.
Proof. unfold goToPage. by destruct (_ || _). Qed.

Lemma goToPage_in_range page wd : page_in_range wd -> page_in_range (goToPage page wd).
Proof.
  unfold page_in_range, goToPage, totalPages.
  destruct ((page <? 1) || (_ <? page)) eqn:Hguard; [done|].
  apply orb_false_elim in Hguard as [H1 H2].
  apply Z.ltb_ge in H1, H2. simpl. lia.
Qed.

Lemma showError_in_range wd w r wd' w' :
  showError wd w = (r, wd', w') ->
  config wd' = config wd /\ isLoading wd' = isLoading wd
  /\ (page_in_range wd -> page_in_range wd').
Proof.
  unfold showError. intros H.
  destruct (Api.getCachedFeed w) as [[[cached|]|e] w1].
  - destruct (filterPosts_json _ _ _) as [ps|]; inversion H; subst; [|done].
    split; [done|]. split; [done|]. intros _. unfold page_in_range. simpl. lia.
  - inversion H; subst. done.
  - inversion H; subst. done.
Qed.

Lemma loadFeed_settle_in_range outcome wd w r wd' w' :
  loadFeed_settle outcome wd w = (r, wd', w') ->
  config wd' = config wd /\ isLoading wd' = false
  /\ (page_in_range wd -> page_in_range wd').
Proof.
  unfold loadFeed_settle. intros H.
  assert (Herr : forall r1 wd1 w1, showError wd w = (r1, wd1, w1) ->
            (r1, set_isLoading false wd1, w1) = (r, wd', w') ->
            config wd' = config wd /\ isLoading wd' = false
            /\ (page_in_range wd -> page_in_range wd')).
  { intros r1 wd1 w1 Hs Heq. apply showError_in_range in Hs as (Hc & _ & Hp).
    inversion Heq; subst. done. }
  destruct outcome as [result|e].
  - destruct (filterPosts_json _ _ _) as [ps|].
    + inversion H; subst. split; [done|]. split; [done|].
      intros _. unfold page_in_range. simpl. lia.
    + destruct (showError wd w) as [[r1 wd1] w1] eqn:Hs. eauto.
  - destruct (showError wd w) as [[r1 wd1] w1] eqn:Hs. eauto.
Qed.

Lemma loadFeed_begin_fields isRefresh wd :
  match loadFeed_begin isRefresh wd with
  | Ignored => isLoading wd = true
  | Crashed wd' _ | Started wd' =>
      isLoading wd = false /\ isLoading wd' = true /\ config wd' = config wd
      /\ posts wd' = posts wd /\ currentPage wd' = currentPage wd
  end.
Proof.
  unfold loadFeed_begin. destruct (isLoading wd) eqn:Hl; [done|].
  destruct isRefresh.
  - unfold showLoadingState. simpl. by destruct (view wd).
  - simpl. by destruct (_ || _).
Qed.

Lemma call_loadFeed_in_range isRefresh s :
  config (widget (call_loadFeed isRefresh s)) = config (widget s)
  /\ (page_in_range (widget s) -> page_in_range (widget (call_loadFeed isRefresh s))).
Proof.
  unfold call_loadFeed.
  pose proof (loadFeed_begin_fields isRefresh (widget s)) as Hb.
  destruct (loadFeed_begin isRefresh (widget s)) as [|wd' e|wd']; [done| |].
  - destruct Hb as (_ & _ & Hc & Hp & Hcp). simpl. split; [done|].
    unfold page_in_range, totalPages. by rewrite Hc, Hp, Hcp.
  - destruct Hb as (_ & _ & Hc & Hp & Hcp).
    destruct (Api.fetchFeed _ _) as [outcome w']. simpl. split; [done|].
    unfold page_in_range, totalPages. by rewrite Hc, Hp, Hcp.
Qed.

Lemma step_in_range a s :
  config (widget (step a s)) = config (widget s)
  /\ (page_in_range (widget s) -> page_in_range (widget (step a s))).
Proof.
  destruct a as [isRefresh|isIntersecting| |page|]; simpl.
  - apply call_loadFeed_in_range.
  - destruct (_ && _); [|done]. simpl.
    destruct (call_loadFeed_in_range false s) as [Hc Hp]. split; [done|].
    intros H. apply Hp in H. done.
  - destruct (inflight s) as [|outcome rest]; [done|].
    destruct (loadFeed_settle outcome (widget s) (world s)) as [[r wd'] w'] eqn:Hs.
    apply loadFeed_settle_in_range in Hs as (Hc & _ & Hp). done.
  - split; [apply goToPage_fields | apply goToPage_in_range].
  - done.
Qed.

Lemma run_in_range actions : forall s,
  config (widget (run actions s)) = config (widget s)
  /\ (page_in_range (widget s) -> page_in_range (widget (run actions s))).
Proof.
  induction actions as [|a actions IH]; intros s; [done|].
  simpl. destruct (IH (step a s)) as [Hc Hp], (step_in_range a s) as [Hc' Hp'].
  split; [congruence | auto].
Qed.

(** C7. With [itemsPerPage > 0] and [total] the ceiling of
    [posts.length / itemsPerPage]: [goToPage(target)] leaves the whole
    state as it is when [target < 1] or [target > total]; otherwise it sets
    [currentPage] to [target], renders once and scrolls; either way
    [currentPage] stays in [1, max(1, total)], and so it does along every
    run of an instance. *)
Theorem goToPage_pagination wd target total :
  0 < itemsPerPage (options (config wd)) ->
  (total - 1) * itemsPerPage (options (config wd))
    < Z.of_nat (length (posts wd)) <= total * itemsPerPage (options (config wd)) ->
  (target < 1 \/ total < target -> goToPage target wd = wd)
  /\ (1 <= target <= total ->
      goToPage target wd = scrollIntoView (render (set_currentPage target wd))
      /\ currentPage (goToPage target wd) = target
      /\ posts (goToPage target wd) = posts wd
      /\ renders (goToPage target wd) = S (renders wd)
      /\ scrolls (goToPage target wd) = S (scrolls wd))
  /\ (1 <= currentPage wd <= Z.max 1 total ->
      1 <= currentPage (goToPage target wd) <= Z.max 1 total)
  /\ (forall w actions,
        1 <= currentPage wd <= Z.max 1 total ->
        let s := {| widget := wd; world := w; inflight := [] |} in
        page_in_range (widget (run actions s))).
Proof.
  intros Hpos Htotal.
  assert (Hceil : totalPages wd = total) by (by apply ceil_div_unique).
  split; [|split; [|split]].
  - intros Hout. unfold goToPage. rewrite Hceil.
    destruct ((target <? 1) || (total <? target)) eqn:Hg; [done|].
    apply orb_false_elim in Hg as [H1 H2]. apply Z.ltb_ge in H1, H2. lia.
  - intros Hin. unfold goToPage. rewrite Hceil.
    replace (target <? 1) with false by (symmetry; apply Z.ltb_ge; lia).
    replace (total <? target) with false by (symmetry; apply Z.ltb_ge; lia).
    done.
  - intros Hcur. pose proof (goToPage_in_range target wd) as Hr.
    unfold page_in_range in Hr. destruct (goToPage_fields target wd) as (Hc & Hp & _).
    unfold totalPages in *. rewrite Hc, Hp in Hr. rewrite Hceil in Hr. auto.
  - intros w actions Hcur s. apply run_in_range. simpl.
    unfold page_in_range. by rewrite Hceil.
Qed.

End Pagination.

(** ** The loading guard of [loadFeed] *)

Section Loading.
Import Widget.

Lemma call_loadFeed_single_flight isRefresh s :
  single_flight s -> single_flight (call_loadFeed isRefresh s).
Proof.
  intros [Hlen Hload]. unfold call_loadFeed.
  pose proof (loadFeed_begin_fields isRefresh (widget s)) as Hb.
  destruct (loadFeed_begin isRefresh (widget s)) as [|wd' e|wd']; [done| |].
  - destruct Hb as (_ & Hl & _). by split.
  - destruct Hb as (Hidle & Hl & _).
    destruct (Api.fetchFeed _ _) as [outcome w'].
    assert (inflight s = []) as Hnone.
    { destruct (inflight s); [done|]. rewrite Hload in Hidle; done. }
    split; simpl; [by rewrite Hnone | done].
Qed.

Lemma step_single_flight a s : single_flight s -> single_flight (step a s).
Proof.
  intros Hs. destruct a as [isRefresh|isIntersecting| |page|]; simpl.
  - by apply call_loadFeed_single_flight.
  - destruct (_ && _); [|done].
    apply (call_loadFeed_single_flight false) in Hs as [Hlen Hload]. by split.
  - destruct Hs as [Hlen Hload].
    destruct (inflight s) as [|outcome rest] eqn:Hin; [by split; rewrite ?Hin|].
    destruct (loadFeed_settle outcome (widget s) (world s)) as [[r wd'] w'].
    destruct rest; [|simpl in Hlen; lia]. split; simpl; [lia | done].
  - destruct Hs as [Hlen Hload]. split; [done|]. simpl.
    intros H. destruct (goToPage_fields page (widget s)) as (_ & _ & ->). auto.
  - destruct Hs as [Hlen Hload]. by split.
Qed.

Lemma run_single_flight actions : forall s,
  single_flight s -> single_flight (run actions s).
Proof.
  induction actions as [|a actions IH]; intros s Hs; [done|].
  simpl. apply IH. by apply step_single_flight.
Qed.

(** C8. A call of [loadFeed] made while [isLoading] is true returns at
    once and changes nothing, in the instance or in the world: no request,
    no write.  So along every run of an instance at most one [fetchFeed]
    is pending; a call that arrives meanwhile is dropped, not queued. *)
Theorem loadFeed_reentrant :
  (forall isRefresh wd w,
      isLoading wd = true -> loadFeed isRefresh wd w = (Ok tt, wd, w))
  /\ (forall isRefresh s,
        isLoading (widget s) = true -> step (CallLoadFeed isRefresh) s = s)
  /\ (forall raw w actions,
        let s := run actions (boot raw w) in
        (length (inflight s) <= 1)%nat
        /\ (inflight s <> [] -> isLoading (widget s) = true)).
Proof.
  split; [|split].
  - intros isRefresh wd w H. unfold loadFeed, loadFeed_begin. by rewrite H.
  - intros isRefresh s H. simpl. unfold call_loadFeed, loadFeed_begin. by rewrite H.
  - intros raw w actions. apply run_single_flight. split; simpl; [lia | done].
Qed.

End Loading.

(** ** The filter: [filterPosts] *)

Section Filtering.
Import Widget.

Lemma str_unstr l : str (unstr l) = l.
Proof. apply list_ascii_of_string_of_list_ascii. Qed.

Lemma unstr_str s : unstr (str s) = s.
Proof. apply string_of_list_ascii_of_string. Qed.

Lemma starts_with_spec p : forall s,
  Str.starts_with p s = true <-> exists after, s = p ++ after.
Proof.
  induction p as [|x p IH]; intros s; simpl.
  - split; [by exists s | done].
  - destruct s as [|y s]; [split; [done | by intros [? ?]]|].
    destruct (decide (x = y)) as [->|Hne].
    + rewrite IH. split; intros [after H]; exists after; simpl in *; congruence.
    + split; [done | intros [after H]; simpl in H; congruence].
Qed.

Lemma includes_chars_spec p : forall s,
  Str.includes_chars s p = true <-> exists before after, s = before ++ p ++ after.
Proof.
  induction s as [|c s IH]; simpl; rewrite orb_true_iff, starts_with_spec.
  - split.
    + intros [[after H]|H]; [|done]. by exists [], after.
    + intros (before & after & H). left. exists after.
      destruct before; [done | discriminate].
  - rewrite IH. split.
    + intros [[after H]|(before & after & H)].
      * by exists [], after.
      * exists (c :: before), after. by rewrite H.
    + intros (before & after & H). destruct before as [|b before].
      * left. by exists after.
      * right. exists before, after. simpl in H. congruence.
Qed.

Lemma includes_spec s p : Str.includes s p = true <-> contains s p.
Proof. apply includes_chars_spec. Qed.

Lemma lower_char_idem c : Str.lower_char (Str.lower_char c) = Str.lower_char c.
Proof. destruct c as [[] [] [] [] [] [] [] []]; reflexivity. Qed.

Lemma toLowerCase_idem s : Str.toLowerCase (Str.toLowerCase s) = Str.toLowerCase s.
Proof.
  unfold Str.toLowerCase. rewrite str_unstr, List.map_map. f_equal.
  apply List.map_ext. intros c. apply lower_char_idem.
Qed.

(** The keywords the constructor keeps are in lower case and not empty. *)
Lemma parse_keywords_lower text k :
  In k (parse_keywords text) -> Str.toLowerCase k = k /\ k <> EmptyString.
Proof.
  unfold parse_keywords. rewrite List.filter_In, List.in_map_iff.
  intros [(raw & <- & _) Hk]. split; [apply toLowerCase_idem|].
  intros Hempty. by rewrite Hempty in Hk.
Qed.

(** The keyword filter the constructor sets up from the option text. *)
Lemma configure_keywords raw text :
  raw_filterKeywords raw = Some text -> text <> EmptyString ->
  filterKeywords (configure raw) = Some (parse_keywords text).
Proof. intros H Hne. unfold configure. simpl. rewrite H. by destruct text. Qed.

(** With no filter configured the callback keeps every post; with
    keywords alone it keeps the posts that mention one. *)
Lemma keeps_no_filter tz c p :
  startDate c = None -> endDate c = None ->
  filterKeywords c = None \/ filterKeywords c = Some [] ->
  keeps tz c p = true.
Proof.
  unfold keeps. intros -> -> [-> | ->]; done.
Qed.

Lemma keeps_keywords tz c K p :
  startDate c = None -> endDate c = None ->
  filterKeywords c = Some K -> K <> [] ->
  (forall k, In k K -> Str.toLowerCase k = k) ->
  keeps tz c p = true <-> mentions K p.
Proof.
  unfold keeps, mentions, message_text. intros -> -> -> Hne Hlow.
  destruct K as [|k0 K]; [done|]. cbn -[existsb Str.includes Str.toLowerCase].
  rewrite existsb_exists. split.
  - intros (k & Hin & Hinc). exists k. split; [done|].
    rewrite (Hlow k Hin). by apply includes_spec.
  - intros (k & Hin & Hc). exists k. split; [done|].
    rewrite (Hlow k Hin) in Hc. by apply includes_spec.
Qed.

Lemma filterPosts_filter tz c P : filterPosts tz c P = List.filter (keeps tz c) P.
Proof. by destruct P. Qed.

(** C4. With keywords [K] (not empty, in lower case as the constructor
    makes them) and no date filter, [filterPosts] returns the posts of [P]
    that mention a keyword, in the order of [P]: the filter of [P] by that
    property.  With no keywords, or none left, it returns [P]; of no posts,
    or of a missing list, it returns no posts. *)
Theorem filterPosts_keywords tz c P :
  startDate c = None -> endDate c = None ->
  (forall K, filterKeywords c = Some K -> K <> [] ->
     (forall k, In k K -> Str.toLowerCase k = k) ->
     exists keep : Post -> bool,
       (forall p, keep p = true <-> mentions K p)
       /\ filterPosts tz c P = List.filter keep P)
  /\ (filterKeywords c = None \/ filterKeywords c = Some [] -> filterPosts tz c P = P)
  /\ filterPosts tz c [] = []
  /\ filterPosts_json tz c JNull = Some [].
Proof.
  intros Hs He. split; [|split; [|done]].
  - intros K HK Hne Hlow. exists (keeps tz c). split.
    + intros p. by apply keeps_keywords.
    + apply filterPosts_filter.
  - intros HK. rewrite filterPosts_filter.
    apply forallb_filter_id, forallb_forall. intros p _. by apply keeps_no_filter.
Qed.

(** On the posts whose [created_time] reads as an instant the date
    filter is the one the specification asks for: with a start date [s],
    an end date [e] whose local day ends at [eod] (23:59:59.999) and no
    keywords, a post dated [t] is kept if and only if [s <= t <= eod]. *)
Lemma filterPosts_dates tz c P s e eod :
  startDate c = Some (Some s) -> endDate c = Some (Some e) ->
  endOfDay tz (Some e) = Some eod ->
  filterKeywords c = None ->
  forall p t, Dates.parse (created_time p) = Some t ->
    (In p (filterPosts tz c P) <-> In p P /\ s <= t <= eod).
Proof.
  intros Hs He Heod HK p t Ht.
  rewrite filterPosts_filter, List.filter_In.
  unfold keeps. rewrite Hs, He, HK, Heod, Ht. simpl.
  destruct (Z.ltb_spec t s); simpl; [intuition lia|].
  destruct (Z.ltb_spec eod t); simpl; intuition lia.
Qed.

(** In a host on UTC the end of the day of [e] is the last millisecond of
    its UTC day. *)
Lemma endOfDay_utc e :
  Z.abs e <= Dates.maxTime - Dates.msPerDay ->
  endOfDay (fun _ _ => 0) (Some e) = Some (e - e mod Dates.msPerDay + 86399999).
Proof.
  intros He. unfold endOfDay, Dates.TimeClip.
  rewrite Z.add_0_r, Z.sub_0_r.
  pose proof (Z.div_mod e Dates.msPerDay ltac:(done)) as Hdm.
  pose proof (Z.mod_pos_bound e Dates.msPerDay ltac:(done)) as Hm.
  replace (e / Dates.msPerDay * Dates.msPerDay) with (e - e mod Dates.msPerDay) by lia.
  replace (23 * 3600000 + 59 * 60000 + 59 * 1000 + 999) with 86399999 by done.
  unfold Dates.msPerDay, Dates.maxTime in *.
  destruct (Z.abs _ <=? _) eqn:Hc; [done|]. apply Z.leb_gt in Hc. lia.
Qed.

End Filtering.

(** ** JSON text: [JSON.parse] inverts [JSON.stringify] *)

Section JsonRoundTrip.
Import Json.

Lemma read_uint_chars d rest :
  Dec.starts_with_digit rest = false ->
  Dec.read_uint (Dec.uint_chars d ++ rest) = (d, rest).
Proof.
  intros Hrest. induction d as [|d IH|d IH|d IH|d IH|d IH|d IH|d IH|d IH|d IH|d IH];
    try (simpl; simpl in IH; rewrite IH; reflexivity).
  simpl. destruct rest as [|c rest]; [done|].
  simpl in Hrest. simpl. by rewrite Hrest.
Qed.

Lemma uint_chars_head d :
  d <> Nil -> exists c t, Dec.uint_chars d = c :: t /\ Dec.is_digit c = true.
Proof.
  destruct d; [done| | | | | | | | | |]; intros _; simpl; eexists _, _; done.
Qed.

Lemma uint_beq_refl d : Decimal.uint_beq d d = true.
Proof. induction d; simpl; done. Qed.

Lemma to_uint_unorm p : unorm (Pos.to_uint p) = Pos.to_uint p.
Proof.
  rewrite <- (DecimalPos.Unsigned.to_of (Pos.to_uint p)).
  by rewrite DecimalPos.Unsigned.of_to.
Qed.

Lemma parse_number_chars n rest :
  number_end rest -> parse_number (Dec.Z_chars n ++ rest) = Some (n, rest).
Proof.
  intros Hend.
  assert (Hdigit : Dec.starts_with_digit rest = false).
  { destruct rest as [|c rest]; [done|]. by destruct Hend. }
  assert (Htail : forall z : Z,
    match rest with
    | [] => Some (z, rest)
    | c :: _ =>
        match code c with
        | 46%N | 101%N | 69%N => None
        | _ => Some (z, rest)
        end
    end = Some (z, rest)).
  { intros z. destruct rest as [|c rest]; [done|].
    destruct Hend as (_ & H1 & H2 & H3).
    destruct (code c) as [|q]; [done|].
    repeat (destruct q as [q|q|]; try done). }
  assert (Hnum : forall (d : Decimal.uint) (neg : bool),
    d <> Nil -> unorm d = d ->
    (let (d', r) := Dec.read_uint (Dec.uint_chars d ++ rest) in
     match d' with
     | Nil => None
     | _ =>
         if Decimal.uint_beq (unorm d') d'
         then
           match r with
           | c :: _ =>
               match code c with
               | 46%N | 101%N | 69%N => None
               | _ => Some (if neg then - Z.of_N (N.of_uint d') else Z.of_N (N.of_uint d'), r)
               end
           | [] => Some (if neg then - Z.of_N (N.of_uint d') else Z.of_N (N.of_uint d'), r)
           end
         else None
     end) = Some (if neg then - Z.of_N (N.of_uint d) else Z.of_N (N.of_uint d), rest)).
  { intros d neg Hnn Hnorm. rewrite read_uint_chars by done.
    rewrite Hnorm, uint_beq_refl.
    destruct d; [done|..]; by rewrite Htail. }
  assert (Hhead : forall d, d <> Nil ->
    match Dec.uint_chars d ++ rest with
    | [] => (false, Dec.uint_chars d ++ rest)
    | c :: r => if (code c =? 45)%N then (true, r) else (false, Dec.uint_chars d ++ rest)
    end = (false, Dec.uint_chars d ++ rest)).
  { intros d Hnn. destruct (uint_chars_head d Hnn) as (c & t & -> & Hd). simpl.
    replace (code c =? 45)%N with false; [done|].
    symmetry. apply N.eqb_neq. intros Heq. unfold Dec.is_digit in Hd. by rewrite Heq in Hd. }
  pose proof DecimalPos.Unsigned.to_uint_nonnil as Hnn.
  unfold parse_number. destruct n as [|p|p].
  - change (Dec.Z_chars 0) with (Dec.uint_chars (D0 Nil)).
    rewrite Hhead by done. by rewrite (Hnum (D0 Nil) false).
  - simpl Dec.Z_chars. rewrite Hhead by done.
    rewrite (Hnum _ false) by (done || apply to_uint_unorm).
    unfold N.of_uint. by rewrite DecimalPos.Unsigned.of_to.
  - simpl. rewrite (Hnum _ true) by (done || apply to_uint_unorm).
    unfold N.of_uint. by rewrite DecimalPos.Unsigned.of_to.
Qed.

Lemma parse_chars_quote_char c r :
  parse_chars (quote_char c ++ r)
  = match parse_chars r with
    | Some (t, r') => Some (c :: t, r')
    | None => None
    end.
Proof. destruct c as [[] [] [] [] [] [] [] []]; reflexivity. Qed.

Lemma parse_chars_quoted s rest :
  parse_chars (flat_map quote_char s ++ dquote :: rest) = Some (s, rest).
Proof.
  induction s as [|c s IH]; [done|].
  simpl flat_map. rewrite <- app_assoc, parse_chars_quote_char, IH. done.
Qed.

Lemma json_ind_nested (P : json -> Prop) :
  P JNull -> (forall b, P (JBool b)) -> (forall n, P (JNum n)) -> (forall s, P (JStr s)) ->
  (forall items, Forall P items -> P (JArr items)) ->
  (forall members, Forall (fun kv => P (snd kv)) members -> P (JObj members)) ->
  forall v, P v.
Proof.
  intros Hnull Hbool Hnum Hstr Harr Hobj.
  fix IH 1. intros [| b | n | s | items | members].
  - exact Hnull.
  - apply Hbool.
  - apply Hnum.
  - apply Hstr.
  - apply Harr. induction items as [|v items IHitems]; constructor; [apply IH | exact IHitems].
  - apply Hobj. induction members as [|[k v] members IHm]; constructor; [apply IH | exact IHm].
Qed.

Lemma digit_head c :
  Dec.is_digit c = true ->
  is_ws c = false /\ code c <> 93%N /\ code c <> 125%N /\ code c <> 34%N.
Proof. destruct c as [[] [] [] [] [] [] [] []]; intros H; try discriminate H; done. Qed.

Lemma parse_value_digit fuel c r :
  Dec.is_digit c = true ->
  parse_value (S fuel) (c :: r)
  = match parse_number (c :: r) with
    | Some (n, r') => Some (JNum n, r')
    | None => None
    end.
Proof. destruct c as [[] [] [] [] [] [] [] []]; intros H; try discriminate H; reflexivity. Qed.

(** The text of a value starts with a character that is neither white
    space nor a closing bracket. *)
Lemma stringify_head v :
  exists c t, stringify_chars v = c :: t
    /\ is_ws c = false /\ code c <> 93%N /\ code c <> 125%N.
Proof.
  destruct v as [| [] | [|p|p] | s | items | members]; simpl;
    try (eexists _, _; split; [reflexivity|done]).
  destruct (uint_chars_head (Pos.to_uint p) (DecimalPos.Unsigned.to_uint_nonnil p))
    as (c & t & -> & Hd).
  apply digit_head in Hd as (? & ? & ? & ?). by eexists _, _.
Qed.

Lemma skip_ws_stringify v rest :
  skip_ws (stringify_chars v ++ rest) = stringify_chars v ++ rest.
Proof.
  destruct (stringify_head v) as (c & t & -> & Hws & _). simpl. by rewrite Hws.
Qed.

Lemma parse_value_array fuel r :
  parse_value (S fuel) ("["%char :: r)
  = match skip_ws r with
    | c' :: r' =>
        if (code c' =? 93)%N then Some (JArr [], r')
        else match parse_items (parse_value fuel) fuel r with
             | Some (vs, r'') => Some (JArr vs, r'')
             | None => None
             end
    | [] => None
    end.
Proof. reflexivity. Qed.

Lemma parse_value_object fuel r :
  parse_value (S fuel) ("{"%char :: r)
  = match skip_ws r with
    | c' :: r' =>
        if (code c' =? 125)%N then Some (JObj [], r')
        else match parse_members (parse_value fuel) fuel r with
             | Some (kvs, r'') => Some (JObj kvs, r'')
             | None => None
             end
    | [] => None
    end.
Proof. reflexivity. Qed.

Lemma parse_value_string fuel r :
  parse_value (S fuel) (dquote :: r)
  = match parse_chars r with
    | Some (t, r') => Some (JStr (unstr t), r')
    | None => None
    end.
Proof. reflexivity. Qed.

Lemma parse_items_more (pv : list ascii -> option (json * list ascii)) n s v r :
  pv s = Some (v, ","%char :: r) ->
  parse_items pv (S n) s
  = match parse_items pv n r with
    | Some (vs, r') => Some (v :: vs, r')
    | None => None
    end.
Proof. intros H. simpl. by rewrite H. Qed.

Lemma parse_items_last (pv : list ascii -> option (json * list ascii)) n s v r :
  pv s = Some (v, "]"%char :: r) -> parse_items pv (S n) s = Some ([v], r).
Proof. intros H. simpl. by rewrite H. Qed.

Lemma parse_members_more (pv : list ascii -> option (json * list ascii)) n k s v r :
  pv s = Some (v, ","%char :: r) ->
  parse_members pv (S n) (quote k ++ ":"%char :: s)
  = match parse_members pv n r with
    | Some (kvs, r') => Some ((k, v) :: kvs, r')
    | None => None
    end.
Proof.
  intros H. unfold quote. rewrite <- app_comm_cons, <- app_assoc.
  simpl. rewrite parse_chars_quoted. simpl. by rewrite H, unstr_str.
Qed.

Lemma parse_members_last (pv : list ascii -> option (json * list ascii)) n k s v r :
  pv s = Some (v, "}"%char :: r) ->
  parse_members pv (S n) (quote k ++ ":"%char :: s) = Some ([(k, v)], r).
Proof.
  intros H. unfold quote. rewrite <- app_comm_cons, <- app_assoc.
  simpl. rewrite parse_chars_quoted. simpl. by rewrite H, unstr_str.
Qed.

(** The elements of an array, each read back by [pv]. *)
Lemma parse_items_stringify (pv : list ascii -> option (json * list ascii)) rest :
  forall items (n : nat),
    items <> [] -> (length items <= n)%nat ->
    Forall (fun v => forall rest', number_end rest' ->
                                   pv (stringify_chars v ++ rest') = Some (v, rest')) items ->
    parse_items pv n (join_comma (List.map stringify_chars items) ++ "]"%char :: rest)
    = Some (items, rest).
Proof.
  induction items as [|v items IH]; intros n Hne Hlen Hall; [done|].
  destruct n as [|n]; [simpl in Hlen; lia|].
  inversion Hall as [|? ? Hv Hrest]; subst.
  destruct items as [|v' items].
  - apply parse_items_last. simpl. by apply Hv.
  - change (join_comma (List.map stringify_chars (v :: v' :: items)))
      with (stringify_chars v ++ ","%char :: join_comma (List.map stringify_chars (v' :: items))).
    rewrite <- app_assoc.
    erewrite parse_items_more; [|by apply Hv].
    rewrite IH; [done|done|simpl in *; lia|done].
Qed.

(** The members of an object, each value read back by [pv]. *)
Lemma parse_members_stringify (pv : list ascii -> option (json * list ascii)) rest :
  forall members (n : nat),
    members <> [] -> (length members <= n)%nat ->
    Forall (fun kv => forall rest', number_end rest' ->
              pv (stringify_chars (snd kv) ++ rest') = Some (snd kv, rest')) members ->
    parse_members pv n
      (join_comma (List.map (fun kv => quote (fst kv) ++ ":"%char :: stringify_chars (snd kv))
                            members) ++ "}"%char :: rest)
    = Some (members, rest).
Proof.
  induction members as [|[k v] members IH]; intros n Hne Hlen Hall; [done|].
  destruct n as [|n]; [simpl in Hlen; lia|].
  inversion Hall as [|? ? Hv Hrest]; subst. simpl in Hv.
  destruct members as [|kv' members].
  - change (join_comma (List.map ?f [(k, v)]))
      with (quote k ++ ":"%char :: stringify_chars v).
    rewrite <- app_assoc, <- app_comm_cons.
    apply parse_members_last. by apply Hv.
  - change (join_comma (List.map ?f ((k, v) :: kv' :: members)))
      with ((quote k ++ ":"%char :: stringify_chars v)
            ++ ","%char :: join_comma (List.map f (kv' :: members))).
    rewrite <- ?app_assoc, <- ?app_comm_cons, <- ?app_assoc.
    erewrite parse_members_more; [|by apply Hv].
    rewrite IH; [done|done|simpl in *; lia|done].
Qed.

Lemma json_size_pos v : (1 <= json_size v)%nat.
Proof. destruct v; simpl; lia. Qed.

Lemma list_sum_bounds {A} (f : A -> nat) (l : list A) :
  (forall x, 1 <= f x)%nat ->
  (length l <= list_sum (List.map f l))%nat
  /\ Forall (fun x => f x <= list_sum (List.map f l))%nat l.
Proof.
  intros Hf. induction l as [|x l [IH1 IH2]]; simpl; [by split|].
  split; [specialize (Hf x); lia|].
  constructor; [lia|]. eapply Forall_impl; [exact IH2|]. simpl. intros; lia.
Qed.

Lemma list_sum_le {A} (f g : A -> nat) (l : list A) :
  Forall (fun x => f x <= g x)%nat l ->
  (list_sum (List.map f l) <= list_sum (List.map g l))%nat.
Proof. induction 1; simpl; lia. Qed.

Lemma join_comma_length (parts : list (list ascii)) :
  (list_sum (List.map (@length ascii) parts) <= length (join_comma parts))%nat.
Proof.
  induction parts as [|p parts IH]; [done|].
  destruct parts as [|q parts]; [simpl; lia|].
  change (join_comma (p :: q :: parts)) with (p ++ ","%char :: join_comma (q :: parts)).
  rewrite length_app. simpl in *. lia.
Qed.

Lemma json_size_length v : (json_size v <= length (stringify_chars v))%nat.
Proof.
  induction v as [| [] | n | s | items IH | members IH] using json_ind_nested;
    try (simpl; lia).
  - simpl. destruct n as [|p|p]; simpl; try lia.
    destruct (uint_chars_head (Pos.to_uint p) (DecimalPos.Unsigned.to_uint_nonnil p))
      as (c & t & -> & _). simpl. lia.
  - simpl. rewrite length_app. simpl.
    pose proof (join_comma_length (List.map stringify_chars items)) as Hj.
    rewrite List.map_map in Hj.
    pose proof (list_sum_le _ _ _ IH). lia.
  - simpl. rewrite length_app. simpl.
    pose proof (join_comma_length
                  (List.map (fun kv => quote (fst kv) ++ ":"%char :: stringify_chars (snd kv))
                            members)) as Hj.
    rewrite List.map_map in Hj.
    assert (Forall (fun kv : string * json =>
              json_size (snd kv)
              <= length (quote (fst kv) ++ ":"%char :: stringify_chars (snd kv)))%nat members)
      as Hle.
    { eapply Forall_impl; [exact IH|]. intros kv Hkv. simpl in Hkv.
      rewrite length_app. simpl. lia. }
    pose proof (list_sum_le _ _ _ Hle). unfold quote in *. simpl in *. lia.
Qed.

(** Reading back the text of a value, whatever follows it. *)
Lemma parse_value_stringify v : forall (fuel : nat) rest,
  (json_size v < fuel)%nat -> number_end rest ->
  parse_value fuel (stringify_chars v ++ rest) = Some (v, rest).
Proof.
  induction v as [| b | n | s | items IH | members IH] using json_ind_nested;
    intros [|fuel] rest Hfuel Hend; try (simpl in Hfuel; lia).
  - reflexivity.
  - destruct b; reflexivity.
  - pose proof (parse_number_chars n rest Hend) as Hn.
    destruct n as [|p|p].
    + change (stringify_chars (JNum 0) ++ rest) with ("0"%char :: rest).
      change (Dec.Z_chars 0 ++ rest) with ("0"%char :: rest) in Hn.
      rewrite parse_value_digit by done. by rewrite Hn.
    + simpl stringify_chars in *. simpl Dec.Z_chars in *.
      destruct (uint_chars_head (Pos.to_uint p) (DecimalPos.Unsigned.to_uint_nonnil p))
        as (c & t & Hc & Hd).
      rewrite Hc in *. simpl app in *. rewrite parse_value_digit by done. by rewrite Hn.
    + simpl stringify_chars in *. simpl Dec.Z_chars in *. simpl app in *.
      change (parse_value (S fuel) ("-"%char :: ?r))
        with (match parse_number ("-"%char :: r) with
              | Some (n, r') => Some (JNum n, r')
              | None => None
              end).
      by rewrite Hn.
  - simpl stringify_chars. unfold quote.
    rewrite <- app_comm_cons, <- app_assoc, parse_value_string.
    simpl app. by rewrite parse_chars_quoted, unstr_str.
  - simpl stringify_chars. rewrite <- app_comm_cons, <- app_assoc, parse_value_array.
    simpl app. destruct items as [|v items]; [reflexivity|].
    assert (exists c t, join_comma (List.map stringify_chars (v :: items)) = c :: t
                        /\ is_ws c = false /\ code c <> 93%N) as (c & t & Hj & Hws & Hc).
    { destruct (stringify_head v) as (c & t & Hv & Hws & Hc & _).
      simpl. rewrite Hv. destruct (List.map stringify_chars items); by eexists _, _. }
    rewrite Hj at 1. simpl skip_ws. rewrite Hws.
    replace (code c =? 93)%N with false by (symmetry; by apply N.eqb_neq).
    simpl in Hfuel.
    destruct (list_sum_bounds json_size (v :: items) json_size_pos) as [Hlen Hsizes].
    rewrite parse_items_stringify; [done|done|simpl in *; lia|].
    rewrite Forall_forall in *. intros x Hx rest' Hrest'.
    apply IH; [done| |done]. specialize (Hsizes x Hx). simpl in *. lia.
  - simpl stringify_chars. rewrite <- app_comm_cons, <- app_assoc, parse_value_object.
    simpl app. destruct members as [|[k v] members]; [reflexivity|].
    assert (exists t,
      join_comma (List.map (fun kv => quote (fst kv) ++ ":"%char :: stringify_chars (snd kv))
                           ((k, v) :: members)) = dquote :: t) as (t & Hj).
    { simpl. destruct (List.map _ members); by eexists. }
    rewrite Hj at 1. simpl skip_ws.
    change (is_ws dquote) with false. change (code dquote =? 125)%N with false.
    cbv iota.
    simpl in Hfuel.
    destruct (list_sum_bounds (fun kv : string * json => json_size (snd kv))
                ((k, v) :: members) (fun kv => json_size_pos (snd kv))) as [Hlen Hsizes].
    rewrite parse_members_stringify; [done|done|simpl in *; lia|].
    rewrite Forall_forall in *. intros x Hx rest' Hrest'.
    apply IH; [done| |done]. specialize (Hsizes x Hx). simpl in *. lia.
Qed.

(** [JSON.parse(JSON.stringify(v))] is [v]. *)
Lemma parse_stringify v : Json.parse (Json.stringify v) = Some v.
Proof.
  unfold Json.parse, Json.stringify. rewrite str_unstr.
  rewrite <- (app_nil_r (stringify_chars v)) at 2.
  rewrite parse_value_stringify; [done| |done].
  pose proof (json_size_length v). lia.
Qed.

(** The text of a value is never empty. *)
Lemma stringify_not_empty v : Json.stringify v <> EmptyString.
Proof.
  unfold Json.stringify. destruct (stringify_head v) as (c & t & -> & _). done.
Qed.

End JsonRoundTrip.

(** ** ISO date text: [new Date(text)] inverts [toISOString] *)

Section DateRoundTrip.
Import Dates.

Lemma code_chr n : (n < 256)%N -> code (chr n) = n.
Proof. apply N_ascii_embedding. Qed.

Lemma digit_char_spec z :
  Dec.is_digit (Dec.digit_char z) = true
  /\ Z.of_N (code (Dec.digit_char z)) - 48 = z mod 10.
Proof.
  pose proof (Z.mod_pos_bound z 10 ltac:(done)) as Hm.
  unfold Dec.digit_char, Dec.is_digit. rewrite code_chr by lia.
  split; [|lia].
  apply andb_true_intro. split; apply N.leb_le; lia.
Qed.

Lemma read_fixed_pad_gen w : forall (k : nat) z acc rest,
  Dec.read_fixed (w + k) acc (Dec.pad w z ++ rest)
  = Dec.read_fixed k (acc * 10 ^ Z.of_nat w + z mod 10 ^ Z.of_nat w) rest.
Proof.
  induction w as [|w IH]; intros k z acc rest.
  - simpl. rewrite Z.mod_1_r. f_equal. lia.
  - simpl Dec.pad. rewrite <- app_assoc. simpl app.
    replace (S w + k)%nat with (w + S k)%nat by lia.
    rewrite IH. simpl Dec.read_fixed.
    destruct (digit_char_spec z) as [-> ->]. f_equal.
    rewrite Nat2Z.inj_succ, Z.pow_succ_r by lia.
    pose proof (Z.pow_pos_nonneg 10 (Z.of_nat w) ltac:(done) ltac:(lia)) as Hp.
    rewrite Z.rem_mul_r by lia. ring.
Qed.

(** A zero-padded field of [w] digits is read back. *)
Lemma read_fixed_pad (w : nat) z rest :
  0 <= z < 10 ^ Z.of_nat w ->
  Dec.read_fixed w 0 (Dec.pad w z ++ rest) = Some (z, rest).
Proof.
  intros Hz. pose proof (read_fixed_pad_gen w 0 z 0 rest) as H.
  rewrite Nat.add_0_r in H. rewrite H. simpl. by rewrite Z.mod_small.
Qed.

Lemma pad_head w z : exists c t, Dec.pad (S w) z = c :: t /\ Dec.is_digit c = true.
Proof.
  revert z. induction w as [|w IH]; intros z.
  - simpl. eexists _, _. split; [done|]. apply digit_char_spec.
  - destruct (IH (z / 10)) as (c & t & Hp & Hd).
    change (Dec.pad (S (S w)) z) with (Dec.pad (S w) (z / 10) ++ [Dec.digit_char z]).
    rewrite Hp. by eexists _, _.
Qed.

Lemma all_from_spec n f : forall i j,
  all_from n f i = true -> i <= j < i + Z.of_nat n -> f j = true.
Proof.
  induction n as [|n IH]; intros i j H Hj; [lia|].
  simpl in H. apply andb_prop in H as [Hi Hrest].
  destruct (decide (j = i)) as [->|Hne]; [done|].
  apply (IH (i + 1)); [done|lia].
Qed.

Lemma era_days_ok : all_from (Z.to_nat daysPerEra) era_day_ok 0 = true.
Proof. vm_compute. reflexivity. Qed.

Lemma is_leap_era y0 era : is_leap (y0 + 400 * era) = is_leap y0.
Proof.
  unfold is_leap.
  replace (y0 + 400 * era) with (y0 + (100 * era) * 4) at 1 by ring.
  replace (y0 + 400 * era) with (y0 + (4 * era) * 100) at 1 by ring.
  replace (y0 + 400 * era) with (y0 + era * 400) by ring.
  by rewrite !Z_mod_plus_full.
Qed.

(** The calendar date of a day number is a valid date, and its day number
    is the one it came from. *)
Lemma civil_from_days_spec z y m d :
  civil_from_days z = (y, m, d) ->
  1 <= m <= 12 /\ 1 <= d <= days_in_month y m
  /\ days_from_civil y m d = z
  /\ 400 * ((z + 719468) / daysPerEra) <= y <= 400 * ((z + 719468) / daysPerEra) + 400.
Proof.
  unfold civil_from_days.
  pose proof (Z.mod_pos_bound (z + 719468) daysPerEra ltac:(done)) as Hdoe.
  pose proof (Z.div_mod (z + 719468) daysPerEra ltac:(done)) as Hdm.
  set (era := (z + 719468) / daysPerEra) in *.
  set (doe := (z + 719468) mod daysPerEra) in *.
  pose proof (all_from_spec _ _ 0 doe era_days_ok) as Hok.
  rewrite Z2Nat.id in Hok by done. specialize (Hok ltac:(lia)).
  unfold era_day_ok in Hok.
  destruct (civil_of_doe doe) as [[y0 m0] d0].
  intros H. inversion H; subst y m d. clear H.
  repeat (apply andb_prop in Hok as [Hok ?]).
  repeat match goal with
         | H : (_ <=? _) = true |- _ => apply Z.leb_le in H
         | H : (_ <? _) = true |- _ => apply Z.ltb_lt in H
         | H : (_ =? _) = true |- _ => apply Z.eqb_eq in H
         end.
  assert (Hdim : days_in_month (y0 + 400 * era) m0 = days_in_month y0 m0).
  { unfold days_in_month. by rewrite is_leap_era. }
  rewrite Hdim.
  split; [lia|]. split; [lia|]. split.
  - unfold days_from_civil.
    set (yoe := if m0 <=? 2 then y0 - 1 else y0) in *.
    replace (if m0 <=? 2 then y0 + 400 * era - 1 else y0 + 400 * era)
      with (yoe + era * 400) by (unfold yoe; destruct (m0 <=? 2); ring).
    rewrite Z_div_plus_full, Z_mod_plus_full by done.
    rewrite Z.div_small, Z.mod_small by lia.
    unfold daysPerEra in *. lia.
  - destruct (m0 <=? 2); lia.
Qed.

Lemma expect_head c r : expect c (c :: r) = Some r.
Proof. unfold expect. by rewrite decide_True. Qed.

Lemma parse_year_chars y rest :
  -999999 <= y <= 999999 -> parse_year (year_chars y ++ rest) = Some (y, rest).
Proof.
  intros Hy. unfold year_chars.
  destruct ((0 <=? y) && (y <=? 9999)) eqn:Hsmall.
  - apply andb_prop in Hsmall as [H1 H2]. apply Z.leb_le in H1, H2.
    pose proof (read_fixed_pad 4 y rest ltac:(simpl; lia)) as Hread.
    destruct (pad_head 3 y) as (c & t & Hp & Hd).
    rewrite Hp in *. simpl app in *. unfold parse_year.
    assert (code c <> 43%N /\ code c <> 45%N) as [Hc1 Hc2].
    { unfold Dec.is_digit in Hd. split; intros Heq; by rewrite Heq in Hd. }
    apply N.eqb_neq in Hc1, Hc2. by rewrite Hc1, Hc2.
  - apply andb_false_iff in Hsmall.
    destruct (y <? 0) eqn:Hneg.
    + apply Z.ltb_lt in Hneg. rewrite <- app_comm_cons. unfold parse_year.
      change (code "-"%char =? 43)%N with false. change (code "-"%char =? 45)%N with true.
      cbv iota.
      rewrite read_fixed_pad by (simpl; lia).
      replace (Z.abs y =? 0) with false by (symmetry; apply Z.eqb_neq; lia).
      do 2 f_equal. lia.
    + apply Z.ltb_ge in Hneg. rewrite <- app_comm_cons. unfold parse_year.
      change (code "+"%char =? 43)%N with true. cbv iota.
      rewrite read_fixed_pad by (simpl; lia).
      do 2 f_equal. lia.
Qed.

Lemma days_in_month_bound y m : days_in_month y m <= 31.
Proof.
  unfold days_in_month.
  destruct (m =? 2); [by destruct (is_leap y)|]. by destruct (_ || _).
Qed.

(** [new Date(d.toISOString())] has the time value of [d]. *)
Lemma parse_toISOString t :
  Z.abs t <= maxTime -> Dates.parse (Dates.toISOString t) = Some t.
Proof.
  intros Ht. unfold Dates.parse, Dates.toISOString. rewrite str_unstr.
  unfold toISOString_chars.
  destruct (civil_from_days (t / msPerDay)) as [[y m] d] eqn:Hciv.
  apply civil_from_days_spec in Hciv as (Hm & Hd & Hdays & Hy).
  pose proof (days_in_month_bound y m) as Hdim.
  pose proof (Z.div_mod t msPerDay ltac:(done)) as Hdm.
  pose proof (Z.mod_pos_bound t msPerDay ltac:(done)) as Hms.
  set (ms := t mod msPerDay) in *.
  assert (Hyear : -999999 <= y <= 999999).
  { unfold maxTime, msPerDay, daysPerEra in *.
    assert (-100000000 <= t / 86400000 <= 100000000) as Hday by lia.
    pose proof (Z.div_mod (t / 86400000 + 719468) 146097 ltac:(done)).
    pose proof (Z.mod_pos_bound (t / 86400000 + 719468) 146097 ltac:(done)).
    lia. }
  assert (Hh : 0 <= ms / 3600000 < 24).
  { unfold msPerDay in *. split; [apply Z.div_pos; lia|].
    apply Z.div_lt_upper_bound; lia. }
  pose proof (Z.mod_pos_bound (ms / 60000) 60 ltac:(done)) as Hmi.
  pose proof (Z.mod_pos_bound (ms / 1000) 60 ltac:(done)) as Hs.
  pose proof (Z.mod_pos_bound ms 1000 ltac:(done)) as Hmss.
  unfold Dates.parse_chars.
  rewrite parse_year_chars, expect_head by done.
  rewrite read_fixed_pad, expect_head by (simpl; lia).
  rewrite read_fixed_pad by (simpl; lia).
  replace ((1 <=? m) && (m <=? 12) && (1 <=? d) && (d <=? days_in_month y m)) with true.
  2:{ symmetry. repeat (apply andb_true_intro; split); apply Z.leb_le; lia. }
  change (code "T"%char =? 84)%N with true. cbv iota.
  unfold parse_time.
  rewrite read_fixed_pad, expect_head by (simpl; lia).
  rewrite read_fixed_pad by (simpl; lia).
  unfold parse_seconds.
  rewrite expect_head, read_fixed_pad by (simpl; lia).
  rewrite expect_head, read_fixed_pad by (simpl; lia).
  change (parse_offset ["Z"%char]) with (Some 0).
  assert (Htod : ms / 3600000 * 3600000 + ms / 60000 mod 60 * 60000
                 + ms / 1000 mod 60 * 1000 + ms mod 1000 - 0 * 60000 = ms).
  { pose proof (Z.div_mod ms 1000 ltac:(done)).
    pose proof (Z.div_mod (ms / 1000) 60 ltac:(done)).
    pose proof (Z.div_mod (ms / 60000) 60 ltac:(done)).
    assert (ms / 60000 = ms / 1000 / 60) by (rewrite Z.div_div by lia; done).
    assert (ms / 3600000 = ms / 60000 / 60) by (rewrite Z.div_div by lia; done).
    lia. }
  rewrite Hdays, Htod.
  assert (E1 : (ms / 3600000 <=? 23) = true) by (apply Z.leb_le; lia).
  assert (E2 : (ms / 60000 mod 60 <=? 59) = true) by (apply Z.leb_le; lia).
  assert (E3 : (ms / 1000 mod 60 <=? 59) = true) by (apply Z.leb_le; lia).
  rewrite E1, E2, E3. simpl andb. simpl orb. cbv iota.
  unfold TimeClip.
  replace (t / msPerDay * msPerDay + ms) with t by lia.
  apply Z.leb_le in Ht. by rewrite Ht.
Qed.

(** The ISO text of an instant is never empty. *)
Lemma toISOString_not_empty t : Dates.toISOString t <> EmptyString.
Proof.
  unfold Dates.toISOString, toISOString_chars.
  destruct (civil_from_days (t / msPerDay)) as [[y m] d].
  unfold year_chars. destruct (_ && _).
  - destruct (pad_head 3 y) as (c & r & -> & _). done.
  - done.
Qed.

End DateRoundTrip.

(** ** The cache: [saveToCache] then [getFromCache] *)

Section Cache.
Import Api.

Lemma cache_keys_differ : CACHE_KEY <> CACHE_TIME_KEY.
Proof. done. Qed.

(** The cache entry of a store that holds both items. *)
Lemma cache_entry_of_items w posts_text time_text v :
  storage_denied w = false ->
  storage w !! CACHE_KEY = Some posts_text ->
  storage w !! CACHE_TIME_KEY = Some time_text ->
  posts_text <> EmptyString -> time_text <> EmptyString ->
  Json.parse posts_text = Some v ->
  cache_entry w = Some {| cached_data := v; cached_timestamp := Dates.parse time_text |}.
Proof.
  intros Hd Hp Ht Hpe Hte Hv. unfold cache_entry. rewrite Hd, Hp, Ht, Hv.
  destruct posts_text; [done|]. destruct time_text; [done|]. done.
Qed.

Lemma cache_entry_no_time w :
  storage w !! CACHE_TIME_KEY = None -> cache_entry w = None.
Proof.
  intros Ht. unfold cache_entry. rewrite Ht.
  destruct (storage_denied w); [done|]. by destruct (storage w !! CACHE_KEY).
Qed.

(** The typed reading of the JSON form of a post list is that list. *)
Lemma of_json_feed_json ps : Posts.of_json (Posts.feed_json ps) = Some ps.
Proof.
  unfold Posts.feed_json, Posts.of_json.
  induction ps as [|p ps IH]; [done|].
  simpl List.map. simpl Posts.posts_of_items. rewrite IH.
  destruct p as [i ct [m|]]; reflexivity.
Qed.

(** C5. [saveToCache(X)], both writes succeeding, then [getFromCache()]:
    a cache entry whose posts are [X] and whose timestamp is the instant
    of the save.  For [X] the JSON form of a post list, the typed reading
    of the cached posts is that list. *)
Theorem cache_round_trip X w :
  storage_denied w = false ->
  Forall (fun fault => fault = false) (take 2 (storage_faults w)) ->
  Z.abs (clock w) <= Dates.maxTime ->
  exists w', saveToCache X w = (Ok tt, w')
    /\ getFromCache w'
       = (Ok (Some {| cached_data := X; cached_timestamp := Some (clock w) |}), w')
    /\ (forall ps, X = Posts.feed_json ps ->
          exists c, cache_entry w' = Some c /\ Posts.of_json (cached_data c) = Some ps).
Proof.
  intros Hd Hfaults Hclock.
  assert (exists w', saveToCache X w = (Ok tt, w')
            /\ storage_denied w' = false
            /\ storage w' = <[CACHE_TIME_KEY := Dates.toISOString (clock w)]>
                              (<[CACHE_KEY := Json.stringify X]> (storage w)))
    as (w' & Hsave & Hd' & Hst).
  { unfold saveToCache, try_catch, bind, setItem, Date_now. rewrite Hd.
    destruct (storage_faults w) as [|f1 [|f2 faults]] eqn:Hf; simpl in Hfaults.
    - simpl. rewrite Hd. eexists. split; [reflexivity|]. done.
    - inversion Hfaults; subst. simpl. rewrite Hd. eexists. split; [reflexivity|]. done.
    - inversion Hfaults as [|? ? ? Hrest]; subst. inversion Hrest; subst.
      simpl. rewrite Hd. eexists. split; [reflexivity|]. done. }
  assert (Hentry : cache_entry w'
            = Some {| cached_data := X; cached_timestamp := Some (clock w) |}).
  { rewrite <- (parse_toISOString (clock w) Hclock).
    apply (cache_entry_of_items w' (Json.stringify X)); try done.
    - rewrite Hst, lookup_insert_ne by (symmetry; apply cache_keys_differ).
      apply lookup_insert_eq.
    - rewrite Hst. apply lookup_insert_eq.
    - apply stringify_not_empty.
    - apply toISOString_not_empty.
    - apply parse_stringify. }
  exists w'. split; [exact Hsave|]. split.
  - destruct (getFromCache_spec w') as (w'' & Hget & Hsame & _).
    rewrite Hentry in *. by rewrite (Hsame ltac:(done)) in Hget.
  - intros ps ->. eexists. split; [exact Hentry|]. apply of_json_feed_json.
Qed.

(** C10 (amended). When the first write of [saveToCache] succeeds and the
    second throws, the store holds the new posts and whatever timestamp
    item it held before: nothing is rolled back, and the error is
    swallowed.  If it held a timestamp item that is not empty,
    [getFromCache] then returns the new posts with that old timestamp; if
    it held none, [getFromCache] returns no entry. *)
Theorem saveToCache_not_atomic X w faults :
  storage_denied w = false ->
  storage_faults w = false :: true :: faults ->
  exists w', saveToCache X w = (Ok tt, w')
    /\ storage w' = <[CACHE_KEY := Json.stringify X]> (storage w)
    /\ (forall old, storage w !! CACHE_TIME_KEY = Some old -> old <> EmptyString ->
          getFromCache w'
          = (Ok (Some {| cached_data := X; cached_timestamp := Dates.parse old |}), w'))
    /\ (storage w !! CACHE_TIME_KEY = None ->
          exists w'', getFromCache w' = (Ok None, w'')).
Proof.
  intros Hd Hf.
  assert (exists w', saveToCache X w = (Ok tt, w')
            /\ storage_denied w' = false
            /\ storage w' = <[CACHE_KEY := Json.stringify X]> (storage w))
    as (w' & Hsave & Hd' & Hst).
  { unfold saveToCache, try_catch, bind, setItem, Date_now. rewrite Hd, Hf.
    simpl. rewrite Hd. eexists. split; [reflexivity|]. done. }
  exists w'. split; [exact Hsave|]. split; [exact Hst|]. split.
  - intros old Hold Hne.
    assert (Hentry : cache_entry w'
              = Some {| cached_data := X; cached_timestamp := Dates.parse old |}).
    { apply (cache_entry_of_items w' (Json.stringify X)); try done.
      - rewrite Hst. apply lookup_insert_eq.
      - rewrite Hst, lookup_insert_ne by apply cache_keys_differ. done.
      - apply stringify_not_empty.
      - apply parse_stringify. }
    destruct (getFromCache_spec w') as (w'' & Hget & Hsame & _).
    rewrite Hentry in *. by rewrite (Hsame ltac:(done)) in Hget.
  - intros Hnone.
    destruct (getFromCache_spec w') as (w'' & Hget & _).
    rewrite cache_entry_no_time in Hget; [by exists w''|].
    rewrite Hst, lookup_insert_ne by apply cache_keys_differ. done.
Qed.

End Cache.

(** ** Examples, witnesses and counterexamples *)

Section Examples.
Import Api Widget.

(** The ISO text of three instants, and the instants of three texts. *)
Example toISOString_samples :
  Dates.toISOString 0 = "1970-01-01T00:00:00.000Z"%string
  /\ Dates.toISOString 1709251199999 = "2024-02-29T23:59:59.999Z"%string
  /\ Dates.toISOString (-1) = "1969-12-31T23:59:59.999Z"%string.
Proof. vm_compute. done. Qed.

Example parse_samples :
  Dates.parse "2025-12-15T09:01:23+0000" = Some 1765789283000
  /\ Dates.parse "2025-11-15" = Some 1763164800000
  /\ Dates.parse "not a date" = None.
Proof. vm_compute. done. Qed.

(** Answers 503, 503, 200: the posts come at the third attempt, after
    waits of 1000 and 2000 ms, and are cached. *)
Example fetchWithRetry_flaky :
  let '(r, w') := fetchWithRetry Sample.endpoint 2
                    (Sample.world "securent.nt.gov.au" Sample.flaky ∅ []) in
  r = Ok Sample.feed
  /\ requests (trace w') = [Sample.endpoint; Sample.endpoint; Sample.endpoint]
  /\ waits (trace w') = [1000; 2000]
  /\ cache_entry w' = Some {| cached_data := Sample.feed;
                              cached_timestamp := Some (1765789283123 + 120 + 1000 + 120
                                                        + 2000 + 80) |}.
Proof. vm_compute. done. Qed.

(** C2. A 404 to every request: [fetchWithRetry] makes three attempts and
    waits 1000 and 2000 ms in between before it throws the client error;
    the 4xx is retried like a transient failure. *)
Theorem fetchWithRetry_retries_404 :
  let '(r, w') := fetchWithRetry Sample.endpoint 2
                    (Sample.world "securent.nt.gov.au" Sample.missing ∅ []) in
  r = Throw {| error_message := "API error: 404" |}
  /\ requests (trace w') = [Sample.endpoint; Sample.endpoint; Sample.endpoint]
  /\ waits (trace w') = [1000; 2000].
Proof. vm_compute. done. Qed.

(** The network down and the store empty: [fetchFeed] throws. *)
Example fetchFeed_hard_failure :
  fst (fetchFeed Sample.endpoint (Sample.world "securent.nt.gov.au" Sample.down ∅ []))
  = Throw {| error_message := "Failed to fetch" |}.
Proof. vm_compute. done. Qed.

(** The network down and a cache entry in the store: the cached posts. *)
Example fetchFeed_fallback :
  fst (fetchFeed Sample.endpoint
         (Sample.world "securent.nt.gov.au" Sample.down
            (<[CACHE_TIME_KEY := "2025-12-15T09:01:23.000Z"%string]>
               (<[CACHE_KEY := Json.stringify Sample.feed]> ∅)) []))
  = Ok {| Api.data := Sample.feed; Api.fromCache := true;
          Api.timestamp := Some 1765789283000;
          Api.error := Some "Failed to fetch"%string |}.
Proof. vm_compute. done. Qed.

(** On localhost the configured endpoint is never requested. *)
Example fetchFeed_on_localhost :
  requests (trace (snd (fetchFeed Sample.endpoint
                          (Sample.world "localhost" Sample.flaky ∅ []))))
  = ["mock-data.json"; "mock-data.json"; "mock-data.json"]%string.
Proof. vm_compute. done. Qed.

(** [filterKeywords="fire;cyclone"] keeps the first and the third post. *)
Example filterPosts_fire_cyclone :
  filterPosts Sample.utc (configure Sample.keyword_options)
    [Sample.fire; Sample.calm; Sample.cyclone]
  = [Sample.fire; Sample.cyclone].
Proof. vm_compute. done. Qed.

(** Five posts, two to a page: pages of 2, 2 and 1, and no page 4. *)
Example pages_of_five :
  view (goToPage 1 Sample.five_posts)
    = Feed None [Sample.fire; Sample.calm] (Some (1, 3)) false
  /\ view (goToPage 2 Sample.five_posts)
    = Feed None [Sample.cyclone; Sample.undated] (Some (2, 3)) false
  /\ view (goToPage 3 Sample.five_posts) = Feed None [Sample.fire] (Some (3, 3)) false
  /\ goToPage 4 Sample.five_posts = Sample.five_posts.
Proof. vm_compute. done. Qed.

(** Witness of C7: page 4 of 3 is refused. *)
Lemma goToPage_pagination_witness :
  goToPage 4 Sample.five_posts = Sample.five_posts.
Proof.
  destruct (goToPage_pagination Sample.five_posts 4 3) as [Hout _].
  - vm_compute. done.
  - vm_compute. split; [done | discriminate].
  - apply Hout. right. lia.
Defined.

(** Witness of C5: the sample feed saved and read back. *)
Lemma cache_round_trip_witness :
  exists w', saveToCache Sample.feed (Sample.world "securent.nt.gov.au" Sample.flaky ∅ [])
             = (Ok tt, w')
    /\ getFromCache w'
       = (Ok (Some {| cached_data := Sample.feed;
                      cached_timestamp := Some 1765789283123 |}), w').
Proof.
  destruct (cache_round_trip Sample.feed
              (Sample.world "securent.nt.gov.au" Sample.flaky ∅ []))
    as (w' & Hsave & Hget & _).
  - reflexivity.
  - simpl. constructor.
  - vm_compute. discriminate.
  - exists w'. split; [exact Hsave | exact Hget].
Defined.

(** Witness of C4: the keywords of the constructor, applied. *)
Lemma filterPosts_keywords_witness :
  exists keep : Post -> bool,
    (forall p, keep p = true <-> mentions ["fire"; "cyclone"]%string p)
    /\ filterPosts Sample.utc (configure Sample.keyword_options)
         [Sample.fire; Sample.calm; Sample.cyclone]
       = List.filter keep [Sample.fire; Sample.calm; Sample.cyclone].
Proof.
  destruct (filterPosts_keywords Sample.utc (configure Sample.keyword_options)
              [Sample.fire; Sample.calm; Sample.cyclone]) as [Hk _].
  - reflexivity.
  - reflexivity.
  - apply (Hk ["fire"; "cyclone"]%string).
    + reflexivity.
    + discriminate.
    + intros k [<- | [<- | []]]; reflexivity.
Defined.

(** C3. The date filter lets through a post whose [created_time] is no
    date.  [new Date("not a date")] is an Invalid Date, both comparisons
    with it are false and neither [return false] is taken: whatever the
    start date, the end date and the time zone, the post is kept.  With
    the range from 15 November to 2 December, on UTC, it is kept beside
    the two posts in the range, while the post of 3 December is dropped. *)
Theorem filterPosts_keeps_unparseable :
  Dates.parse (created_time Sample.undated) = None
  /\ (forall tz c, keeps tz (without_keywords c) Sample.undated = true)
  /\ filterPosts Sample.utc (configure Sample.date_options)
       [Sample.fire; Sample.calm; Sample.cyclone; Sample.undated]
     = [Sample.fire; Sample.calm; Sample.undated].
Proof.
  assert (Hno : Dates.parse (created_time Sample.undated) = None)
    by (vm_compute; reflexivity).
  split; [exact Hno|]. split; [|vm_compute; reflexivity].
  intros tz c. unfold keeps. rewrite Hno. simpl.
  destruct (startDate c) as [[s|]|]; destruct (endDate c) as [[e|]|]; simpl;
    try reflexivity; unfold Dates.gt, Dates.lt; by destruct (Dates.TimeClip _).
Qed.

(** Witness of C10: the posts replaced under an old timestamp. *)
Lemma saveToCache_not_atomic_witness :
  exists w',
    saveToCache Sample.feed
      (Sample.world "securent.nt.gov.au" Sample.flaky
         (<[CACHE_TIME_KEY := "2025-12-01T00:00:00.000Z"%string]> ∅) [false; true])
    = (Ok tt, w')
    /\ getFromCache w'
       = (Ok (Some {| cached_data := Sample.feed;
                      cached_timestamp := Some 1764547200000 |}), w').
Proof.
  destruct (saveToCache_not_atomic Sample.feed
              (Sample.world "securent.nt.gov.au" Sample.flaky
                 (<[CACHE_TIME_KEY := "2025-12-01T00:00:00.000Z"%string]> ∅)
                 [false; true]) [])
    as (w' & Hsave & _ & Hold & _).
  - reflexivity.
  - reflexivity.
  - exists w'. split; [exact Hsave|].
    apply (Hold "2025-12-01T00:00:00.000Z"%string); [reflexivity | discriminate].
Defined.

(** Counterexample to C10 as stated: a store that holds other items of
    the page and no cache yet; the first write succeeds and the second
    throws; the posts are in the store, without a timestamp, and
    [getFromCache] returns no entry. *)
Lemma saveToCache_partial_write_absent :
  let w := Sample.world "securent.nt.gov.au" Sample.flaky
             (<["page-settings"%string := "{}"%string]> ∅) [false; true] in
  let w' := snd (saveToCache Sample.feed w) in
  fst (saveToCache Sample.feed w) = Ok tt
  /\ storage w' !! CACHE_KEY = Some (Json.stringify Sample.feed)
  /\ storage w' !! CACHE_TIME_KEY = None
  /\ fst (getFromCache w') = Ok None.
Proof. vm_compute. done. Qed.

End Examples.

(* ===================================================================== *)
(** * Part III. Further properties of the code                            *)
(* ===================================================================== *)

(** ** [src/api.js]: what a fetch does to the store, and what the store
    does to a fetch *)

Section FetchAndStore.
Import Api.

(** A failed call of the loop has not touched localStorage. *)
Lemma fetchWithRetry_loop_failure url retries left : forall w e w',
  fetchWithRetry_loop url retries left w = (Throw e, w') ->
  storage w' = storage w /\ storage_faults w' = storage_faults w
  /\ storage_denied w' = storage_denied w.
Proof.
  induction left as [|left IH]; intros w e w'; simpl; unfold try_catch;
    rewrite attempt_once_world;
    destruct (attempt_result (network w (sent w) url)) as [v|e0]; try discriminate.
  - unfold bind, console, effect, throw. intros H. inversion H; subst. done.
  - unfold bind at 1.
    destruct (delays !! (retries - S left)%nat) as [d|].
    + unfold sleep, effect. intros H. apply IH in H as (-> & -> & ->). done.
    + unfold ret. intros H. apply IH in H as (-> & -> & ->). done.
Qed.

Lemma getApiUrl_fields apiUrl w r w' :
  getApiUrl apiUrl w = (r, w') ->
  storage w' = storage w /\ storage_faults w' = storage_faults w
  /\ storage_denied w' = storage_denied w /\ network w' = network w /\ sent w' = sent w.
Proof.
  destruct (getApiUrl_spec apiUrl w) as (w1 & -> & (_ & _ & ? & ?) & ? & _ & ? & ? & _).
  intros Heq. inversion Heq; subst. done.
Qed.

(** X1. [fetchFeed] writes to localStorage only on the way to a fresh
    result: whenever it returns cached posts or throws, the items of the
    store are what they were before the call. *)
Theorem fetchFeed_failure_keeps_store apiUrl w r w' :
  fetchFeed apiUrl w = (r, w') ->
  ~ served_fresh r ->
  storage w' = storage w /\ storage_faults w' = storage_faults w.
Proof.
  unfold fetchFeed, try_catch, bind. intros H Hstale.
  destruct (getApiUrl apiUrl w) as [[url|e0] w1] eqn:Hurl.
  2:{ destruct (getApiUrl_spec apiUrl w) as (? & Heq & _). congruence. }
  apply getApiUrl_fields in Hurl as (Hs1 & Hf1 & _).
  destruct (fetchWithRetry url 2 w1) as [[posts|e] w2] eqn:Hlive.
  - unfold Date_now, ret in H. inversion H; subst. simpl in Hstale. by destruct Hstale.
  - apply fetchWithRetry_loop_failure in Hlive as (Hs2 & Hf2 & _).
    destruct (getFromCache_spec w2) as (w3 & Hget & _ & _ & _ & _ & Hs3 & Hf3 & _).
    rewrite Hget in H.
    assert (w' = w3) as -> by (destruct (cache_entry w2); inversion H; done).
    split; congruence.
Qed.

Lemma fetchFeed_failure_keeps_store_witness :
  storage (snd (fetchFeed Sample.endpoint
                  (Sample.world "securent.nt.gov.au" Sample.down ∅ [true]))) = ∅
  /\ storage_faults (snd (fetchFeed Sample.endpoint
                  (Sample.world "securent.nt.gov.au" Sample.down ∅ [true]))) = [true].
Proof.
  apply (fetchFeed_failure_keeps_store Sample.endpoint
           (Sample.world "securent.nt.gov.au" Sample.down ∅ [true])
           (fst (fetchFeed Sample.endpoint
                   (Sample.world "securent.nt.gov.au" Sample.down ∅ [true])))).
  - by destruct (fetchFeed _ _).
  - vm_compute. intros H. exact H.
Defined.

(** X2. Caching is best effort: whether [fetchWithRetry] returns posts or
    throws, which error, after which requests and waits, is the same for
    every state of localStorage, full, empty or closed to the page. *)
Theorem fetchWithRetry_ignores_store url w items denied faults :
  fst (fetchWithRetry url 2 (with_store items denied faults w))
  = fst (fetchWithRetry url 2 w)
  /\ requests (trace (snd (fetchWithRetry url 2 (with_store items denied faults w))))
     = requests (trace (snd (fetchWithRetry url 2 w)))
  /\ waits (trace (snd (fetchWithRetry url 2 (with_store items denied faults w))))
     = waits (trace (snd (fetchWithRetry url 2 w))).
Proof.
  destruct (fetchWithRetry_spec url w)
    as (k & w1 & Hk & Hrun & Hfail & Hlast & _ & _ & Hreq & Hwait).
  destruct (fetchWithRetry_spec url (with_store items denied faults w))
    as (k' & w1' & Hk' & Hrun' & Hfail' & Hlast' & _ & _ & Hreq' & Hwait').
  simpl in *.
  assert (k' = k) as ->.
  { destruct (Nat.lt_trichotomy k' k) as [Hlt|[Heq|Hgt]]; [|done|].
    - specialize (Hlast' (Hfail k' Hlt)). lia.
    - specialize (Hlast (Hfail' k Hgt)). lia. }
  rewrite Hrun, Hrun'. simpl. rewrite Hreq, Hreq', Hwait, Hwait'. done.
Qed.

Lemma cache_entry_ext w w' :
  storage w' = storage w -> storage_denied w' = storage_denied w ->
  cache_entry w' = cache_entry w.
Proof. intros Hs Hd. unfold cache_entry. by rewrite Hs, Hd. Qed.

(** What [saveToCache] leaves in a store that takes both writes. *)
Lemma saveToCache_stores X w :
  storage_denied w = false ->
  Forall (fun fault => fault = false) (take 2 (storage_faults w)) ->
  Z.abs (clock w) <= Dates.maxTime ->
  cache_entry (snd (saveToCache X w))
  = Some {| cached_data := X; cached_timestamp := Some (clock w) |}
  /\ clock (snd (saveToCache X w)) = clock w
  /\ storage_denied (snd (saveToCache X w)) = false.
Proof.
  intros Hd Hfaults Hclock.
  assert (exists w', saveToCache X w = (Ok tt, w')
            /\ storage_denied w' = false /\ clock w' = clock w
            /\ storage w' = <[CACHE_TIME_KEY := Dates.toISOString (clock w)]>
                              (<[CACHE_KEY := Json.stringify X]> (storage w)))
    as (w' & -> & Hd' & Hc' & Hst).
  { unfold saveToCache, try_catch, bind, setItem, Date_now. rewrite Hd.
    destruct (storage_faults w) as [|f1 [|f2 faults]] eqn:Hf; simpl in Hfaults.
    - simpl. rewrite Hd. eexists. split; [reflexivity|]. done.
    - inversion Hfaults; subst. simpl. rewrite Hd. eexists. split; [reflexivity|]. done.
    - inversion Hfaults as [|? ? ? Hrest]; subst. inversion Hrest; subst.
      simpl. rewrite Hd. eexists. split; [reflexivity|]. done. }
  simpl. split; [|done].
  rewrite <- (parse_toISOString (clock w) Hclock).
  apply (cache_entry_of_items w' (Json.stringify X)); try done.
  - rewrite Hst, lookup_insert_ne by (symmetry; apply cache_keys_differ).
    apply lookup_insert_eq.
  - rewrite Hst. apply lookup_insert_eq.
  - apply stringify_not_empty.
  - apply toISOString_not_empty.
  - apply parse_stringify.
Qed.

(** A call of the loop that returns posts has cached them. *)
Lemma fetchWithRetry_loop_success url retries left : forall w v w',
  fetchWithRetry_loop url retries left w = (Ok v, w') ->
  storage_denied w = false ->
  Forall (fun fault => fault = false) (take 2 (storage_faults w)) ->
  Z.abs (clock w') <= Dates.maxTime ->
  cache_entry w' = Some {| cached_data := v; cached_timestamp := Some (clock w') |}
  /\ storage_denied w' = false.
Proof.
  assert (Hok : forall w v w',
    (Ok v, snd (saveToCache v (after_fetch url w))) = (Ok v, w') ->
    storage_denied w = false ->
    Forall (fun fault => fault = false) (take 2 (storage_faults w)) ->
    Z.abs (clock w') <= Dates.maxTime ->
    cache_entry w' = Some {| cached_data := v; cached_timestamp := Some (clock w') |}
    /\ storage_denied w' = false).
  { intros w v w' H Hd Hf Hc.
    assert (w' = snd (saveToCache v (after_fetch url w))) as -> by (inversion H; done).
    destruct (saveToCache_frame v (after_fetch url w)) as (w1 & Hs & _ & _ & Hclock & _).
    rewrite Hs in Hc. simpl in Hc.
    destruct (saveToCache_stores v (after_fetch url w)) as (He & Hc' & Hd');
      [done | done | by rewrite <- Hclock |].
    rewrite He, Hc'. done. }
  induction left as [|left IH]; intros w v w'; simpl; unfold try_catch;
    rewrite attempt_once_world;
    destruct (attempt_result (network w (sent w) url)) as [v0|e0].
  - intros H. assert (v0 = v) as -> by (inversion H; done). by apply Hok.
  - unfold bind, console, effect, throw. discriminate.
  - intros H. assert (v0 = v) as -> by (inversion H; done). by apply Hok.
  - unfold bind at 1.
    destruct (delays !! (retries - S left)%nat) as [d|].
    + unfold sleep, effect. intros H Hd Hf Hc. by apply IH in H.
    + unfold ret. intros H Hd Hf Hc. by apply IH in H.
Qed.

(** A fresh result of [fetchFeed] is in the cache when the store took it. *)
Lemma fetchFeed_fresh_cached apiUrl w res w1 :
  fetchFeed apiUrl w = (Ok res, w1) ->
  fromCache res = false ->
  storage_denied w = false ->
  Forall (fun fault => fault = false) (take 2 (storage_faults w)) ->
  Z.abs (clock w1) <= Dates.maxTime ->
  cache_entry w1
  = Some {| cached_data := data res; cached_timestamp := Some (clock w1) |}
  /\ storage_denied w1 = false.
Proof.
  intros Hfirst Hfresh Hd Hf Hclock.
  unfold fetchFeed, try_catch, bind in Hfirst.
  destruct (getApiUrl apiUrl w) as [[url|e0] wa] eqn:Hurl.
  2:{ destruct (getApiUrl_spec apiUrl w) as (? & Heq & _). congruence. }
  apply getApiUrl_fields in Hurl as (Hsa & Hfa & Hda & _).
  destruct (fetchWithRetry url 2 wa) as [[posts|e] wb] eqn:Hlive.
  - unfold Date_now, ret in Hfirst. inversion Hfirst; subst. simpl.
    apply (fetchWithRetry_loop_success _ _ _ _ _ _ Hlive); congruence.
  - destruct (getFromCache_spec wb) as (wc & Hget & _).
    rewrite Hget in Hfirst.
    destruct (cache_entry wb); inversion Hfirst; subst. simpl in Hfresh. done.
Qed.

(** With every attempt failing, [fetchFeed] returns the cache entry. *)
Lemma fetchFeed_offline apiUrl w c :
  cache_entry w = Some c ->
  (forall (i : nat) url, failed (attempt_result (network w (sent w + i)%nat url))) ->
  exists w' msg,
    fetchFeed apiUrl w
    = (Ok {| data := cached_data c; fromCache := true;
             timestamp := cached_timestamp c; error := Some msg |}, w')
    /\ same_host w w'.
Proof.
  intros Hentry Hdown.
  unfold fetchFeed, try_catch, bind.
  destruct (getApiUrl_spec apiUrl w)
    as (wa & Hurl & Hha & Hsent & _ & Hsa & _).
  rewrite Hurl. set (url := if decide (on_localhost w) then _ else _).
  destruct (fetchWithRetry_spec url wa) as (k & wb & _ & Hrun & _ & _ & Hhb & _).
  rewrite Hrun.
  assert (Hna : network wa = network w) by (by destruct Hha as (_ & _ & ? & _)).
  rewrite Hna, Hsent in *.
  pose proof (Hdown k url) as Hfailed.
  destruct (attempt_result (network w (sent w + k)%nat url)) as [v|e] eqn:Hres; [done|].
  apply fetchWithRetry_loop_failure in Hrun as (Hsb & _ & Hdb).
  destruct (getFromCache_spec wb) as (wc & Hget & Hsame & Hhc & _).
  rewrite Hget.
  assert (Hd : storage_denied wa = storage_denied w) by (by destruct Hha as (_ & _ & _ & ?)).
  rewrite (cache_entry_ext w wb), Hentry by congruence.
  eexists _, _. split; [reflexivity|].
  eapply same_host_trans; [exact Hha|]. eapply same_host_trans; [exact Hhb|exact Hhc].
Qed.

(** X3. Last known good: after a call of [fetchFeed] that returned fresh
    posts and could write them, a later call on the same store during
    which every attempt fails returns those same posts, marked as cached
    and with the error of the failure. *)
Theorem fetchFeed_last_known_good apiUrl w res w1 :
  fetchFeed apiUrl w = (Ok res, w1) ->
  fromCache res = false ->
  storage_denied w = false ->
  Forall (fun fault => fault = false) (take 2 (storage_faults w)) ->
  Z.abs (clock w1) <= Dates.maxTime ->
  forall w2,
    storage w2 = storage w1 -> storage_denied w2 = false ->
    (forall (i : nat) url, failed (attempt_result (network w2 (sent w2 + i)%nat url))) ->
    exists w3 ts msg,
      fetchFeed apiUrl w2
      = (Ok {| data := data res; fromCache := true;
               timestamp := Some ts; error := Some msg |}, w3).
Proof.
  intros Hfirst Hfresh Hd Hf Hclock w2 Hs2 Hd2 Hdown.
  destruct (fetchFeed_fresh_cached _ _ _ _ Hfirst Hfresh Hd Hf Hclock) as [Hentry Hd1].
  destruct (fetchFeed_offline apiUrl w2 {| cached_data := data res;
                                           cached_timestamp := Some (clock w1) |})
    as (w3 & msg & Hrun & _).
  - rewrite <- Hentry. apply cache_entry_ext; congruence.
  - done.
  - by exists w3, (clock w1), msg.
Qed.

Lemma fetchFeed_last_known_good_witness :
  exists w3 ts msg,
    fetchFeed Sample.endpoint
      (Sample.world "securent.nt.gov.au" Sample.down
         (storage (snd (fetchFeed Sample.endpoint
                          (Sample.world "securent.nt.gov.au" Sample.flaky ∅ [])))) [])
    = (Ok {| data := Sample.feed; fromCache := true;
             timestamp := Some ts; error := Some msg |}, w3).
Proof.
  assert (H : fetchFeed Sample.endpoint (Sample.world "securent.nt.gov.au" Sample.flaky ∅ [])
              = (Ok {| data := Sample.feed; fromCache := false;
                       timestamp := Some 1765789286443; error := None |},
                 snd (fetchFeed Sample.endpoint
                        (Sample.world "securent.nt.gov.au" Sample.flaky ∅ []))))
    by (vm_compute; reflexivity).
  apply (fetchFeed_last_known_good _ _ _ _ H).
  - reflexivity.
  - reflexivity.
  - simpl. constructor.
  - vm_compute. discriminate.
  - vm_compute. reflexivity.
  - reflexivity.
  - intros i url. exact I.
Defined.

(** An answer that comes too late is an abort, whatever it says. *)
Lemma attempt_result_late r :
  API_TIMEOUT <= latency r ->
  attempt_result r = Throw {| error_message := abort_message |}.
Proof.
  intros H. apply Z.ltb_ge in H. destruct r; simpl in *; by rewrite H.
Qed.

(** X4. A server that never answers within the timeout.  The call is
    three attempts, each given up when the abort timer fires 5000 ms
    after its request, with a wait of 1000 ms between the first and the
    second and of 2000 ms between the second and the third; it then logs
    and throws the error of the aborted fetch, 18 seconds after the call,
    the store untouched. *)
Theorem fetchWithRetry_hanging_server url w :
  (forall i, API_TIMEOUT <= latency (network w i url)) ->
  exists e w1 w2 w3,
    attempt_once url w = (Throw e, w1)
    /\ clock w1 = clock w + API_TIMEOUT
    /\ attempt_once url (snd (sleep 1000 w1)) = (Throw e, w2)
    /\ clock w2 = clock w1 + 1000 + API_TIMEOUT
    /\ attempt_once url (snd (sleep 2000 w2)) = (Throw e, w3)
    /\ clock w3 = clock w2 + 2000 + API_TIMEOUT
    /\ fetchWithRetry url 2 w
       = (Throw e, snd (console ErrorLevel "API fetch failed after retries:" w3))
    /\ schedule (trace w3) = schedule (trace w) ++ backoff_plan url
    /\ requests (trace w3) = requests (trace w) ++ [url; url; url]
    /\ waits (trace w3) = waits (trace w) ++ [1000; 2000]
    /\ clock w3 = clock w + 18000
    /\ storage w3 = storage w.
Proof.
  intros Hslow.
  assert (Hstep : forall w0, network w0 = network w ->
            attempt_once url w0
            = (Throw {| error_message := abort_message |},
               advance API_TIMEOUT (count_request (emit (Fetch url) w0)))).
  { intros w0 Hnet. rewrite attempt_once_world. unfold after_fetch.
    rewrite Hnet, attempt_result_late by apply Hslow.
    pose proof (Hslow (sent w0)) as Hl. apply Z.ltb_ge in Hl. by rewrite Hl. }
  eexists _, _, _, _.
  split; [by apply Hstep|]. split; [done|].
  split; [by apply Hstep|]. split; [simpl; lia|].
  split; [by apply Hstep|]. split; [simpl; lia|].
  split.
  { unfold fetchWithRetry. simpl fetchWithRetry_loop. unfold try_catch.
    rewrite Hstep by done. unfold bind at 1. simpl.
    unfold try_catch. rewrite Hstep by done. unfold bind at 1. simpl.
    unfold try_catch. rewrite Hstep by done. reflexivity. }
  simpl. rewrite !schedule_app, !requests_app, !waits_app. simpl.
  rewrite !app_nil_r, <- !app_assoc. simpl.
  unfold API_TIMEOUT. split_and!; try done. lia.
Qed.

Lemma fetchWithRetry_hanging_server_witness :
  exists e w',
    fetchWithRetry Sample.endpoint 2 (Sample.world "securent.nt.gov.au" hanging ∅ [])
    = (Throw e, w')
    /\ schedule (trace w') = backoff_plan Sample.endpoint
    /\ clock w' = 1765789283123 + 18000.
Proof.
  destruct (fetchWithRetry_hanging_server Sample.endpoint
              (Sample.world "securent.nt.gov.au" hanging ∅ []))
    as (e & w1 & w2 & w3 & _ & _ & _ & _ & _ & _ & Hrun & Hplan & _ & _ & Hclock & _).
  - intros i. vm_compute. discriminate.
  - eexists e, _. split; [exact Hrun|]. simpl. rewrite schedule_app. simpl.
    rewrite app_nil_r. split; [exact Hplan | exact Hclock].
Defined.

End FetchAndStore.

(** ** [src/widget.js]: the pages of [render] and [goToPage] *)

Section Paging.
Import Widget.

(** A page of [n] posts is [n] posts from the [i]-th multiple of [n] on. *)
Lemma slice_page {A} (l : list A) (i : nat) (n : Z) :
  0 < n ->
  slice l (Z.of_nat i * n) (Z.of_nat i * n + n)
  = take (Z.to_nat n) (drop (i * Z.to_nat n) l).
Proof.
  intros Hn. unfold slice.
  assert (Hs : (Z.of_nat i * n <? 0) = false) by (apply Z.ltb_ge; nia).
  assert (He : (Z.of_nat i * n + n <? 0) = false) by (apply Z.ltb_ge; nia).
  rewrite Hs, He.
  assert (Hi : Z.to_nat (Z.of_nat i * n) = (i * Z.to_nat n)%nat) by nia.
  destruct (Z_le_gt_dec (Z.of_nat i * n) (Z.of_nat (length l))) as [Hin|Hout].
  - rewrite (Z.min_l (Z.of_nat i * n)) by done. rewrite Hi.
    destruct (Z_le_gt_dec (Z.of_nat i * n + n) (Z.of_nat (length l))) as [Hfull|Hshort].
    + rewrite Z.min_l by done. f_equal. lia.
    + rewrite Z.min_r by lia.
      rewrite !take_ge; [done | | ]; rewrite length_drop; nia.
  - rewrite !Z.min_r by lia. rewrite Z.sub_diag.
    rewrite (drop_ge l (i * Z.to_nat n)) by nia. by rewrite take_nil.
Qed.

Lemma concat_pages {A} (l : list A) (n k : nat) :
  List.concat (List.map (fun i => take n (drop (i * n) l)) (seq 0 k)) = take (k * n) l.
Proof.
  induction k as [|k IH]; [done|].
  rewrite seq_S, List.map_app, List.concat_app, IH. simpl.
  rewrite app_nil_r, take_take_drop. f_equal. lia.
Qed.

(** What [goToPage] shows on a page that exists. *)
Lemma goToPage_shown wd (i : nat) :
  0 < itemsPerPage (options (config wd)) ->
  Z.of_nat i < totalPages wd ->
  shown (view (goToPage (Z.of_nat (S i)) wd))
  = take (Z.to_nat (itemsPerPage (options (config wd))))
         (drop (i * Z.to_nat (itemsPerPage (options (config wd)))) (posts wd)).
Proof.
  intros Hn Hi. unfold goToPage.
  assert (Hguard : (Z.of_nat (S i) <? 1) || (totalPages wd <? Z.of_nat (S i)) = false).
  { apply orb_false_iff. split; apply Z.ltb_ge; lia. }
  rewrite Hguard. cbn -[Z.of_nat Z.mul Z.add Z.sub slice].
  replace (Z.of_nat (S i) - 1) with (Z.of_nat i) by lia.
  by apply slice_page.
Qed.

(** X5. Paging with [goToPage] through the pages 1 to [totalPages] shows
    every post once and in order, and each of these pages shows one post
    at least and [itemsPerPage] at most. *)
Theorem pages_partition_posts wd :
  0 < itemsPerPage (options (config wd)) ->
  List.concat (List.map (fun p => shown (view (goToPage p wd)))
                        (page_numbers (totalPages wd)))
  = posts wd
  /\ forall p, 1 <= p <= totalPages wd ->
       0 < Z.of_nat (length (shown (view (goToPage p wd))))
         <= itemsPerPage (options (config wd)).
Proof.
  intros Hn.
  pose proof (ceil_div_spec (Z.of_nat (length (posts wd))) _ Hn) as Hceil.
  fold (totalPages wd) in Hceil.
  split.
  - unfold page_numbers. rewrite <- seq_shift, !List.map_map.
    rewrite (map_ext_in _ (fun i => take (Z.to_nat (itemsPerPage (options (config wd))))
               (drop (i * Z.to_nat (itemsPerPage (options (config wd)))) (posts wd)))).
    + rewrite concat_pages. apply take_ge. nia.
    + intros i Hi%in_seq. apply goToPage_shown; [done | lia].
  - intros p Hp.
    replace p with (Z.of_nat (S (Z.to_nat (p - 1)))) by lia.
    rewrite goToPage_shown by (done || lia).
    rewrite length_take, length_drop. nia.
Qed.

Lemma pages_partition_posts_witness :
  List.concat (List.map (fun p => shown (view (goToPage p Sample.five_posts))) [1; 2; 3])
  = [Sample.fire; Sample.calm; Sample.cyclone; Sample.undated; Sample.fire].
Proof.
  apply (pages_partition_posts Sample.five_posts). reflexivity.
Defined.

End Paging.

(** ** [src/widget.js]: an instance over its life *)

Section Lifecycle.
Import Widget.

Lemma step_stuck w a s : stuck w s -> stuck w (step a s).
Proof.
  intros (Hload & Hview & Hposts & Hfly & Hw).
  destruct a as [isRefresh|isIntersecting| |page|]; simpl.
  - unfold call_loadFeed, loadFeed_begin. rewrite Hload. done.
  - rewrite Hload, !andb_false_r. simpl. done.
  - rewrite Hfly. done.
  - unfold goToPage, totalPages. rewrite Hposts. simpl.
    assert (Hguard : (page <? 1) || (0 <? page) = true).
    { apply orb_true_iff. destruct (Z.ltb_spec page 1); [by left|right].
      apply Z.ltb_lt. lia. }
    unfold ceil_div. change (- 0) with 0. rewrite Zdiv_0_l. change (- 0) with 0.
    rewrite Hguard. done.
  - done.
Qed.

Lemma run_stuck w actions : forall s, stuck w s -> stuck w (run actions s).
Proof.
  induction actions as [|a actions IH]; intros s Hs; [done|].
  simpl. apply IH. by apply step_stuck.
Qed.

(** X6. A page size below 0 or above 4294967295 disables the widget for
    good: the first [loadFeed], started by the observer, throws in
    [showSkeletonLoader] before the [try], [isLoading] stays set, and
    whatever happens afterwards the element stays empty, no posts are
    held and [fetchFeed] is never called. *)
Theorem bad_page_size_never_loads raw text n w actions :
  raw_itemsPerPage raw = Some text ->
  Str.parseInt text = Some n ->
  n < 0 \/ 4294967295 < n ->
  let s := run (Intersect true :: actions) (boot raw w) in
  isLoading (widget s) = true
  /\ view (widget s) = Blank
  /\ posts (widget s) = []
  /\ inflight s = []
  /\ world s = w.
Proof.
  intros Hraw Hnum Hbad.
  change (stuck w (run actions (step (Intersect true) (boot raw w)))).
  apply run_stuck.
  assert (Hsize : itemsPerPage (options (configure raw)) = n).
  { simpl. rewrite Hraw, Hnum. destruct n; [lia|done|done]. }
  assert (Hcrash : (n <? 0) || (4294967295 <? n) = true).
  { apply orb_true_iff. destruct Hbad; [left|right]; by apply Z.ltb_lt. }
  unfold stuck, boot, step, create, call_loadFeed, loadFeed_begin.
  cbn -[configure Z.ltb]. rewrite Hsize, Hcrash. done.
Qed.

Lemma bad_page_size_never_loads_witness :
  let s := run [Intersect true; CallLoadFeed false; Intersect true; CallLoadFeed true]
               (boot (page_size_options "-3")
                     (Sample.world "securent.nt.gov.au" Sample.flaky ∅ [])) in
  isLoading (widget s) = true
  /\ view (widget s) = Blank
  /\ posts (widget s) = []
  /\ inflight s = []
  /\ world s = Sample.world "securent.nt.gov.au" Sample.flaky ∅ [].
Proof.
  apply (bad_page_size_never_loads (page_size_options "-3") "-3" (-3)).
  - reflexivity.
  - reflexivity.
  - left. reflexivity.
Defined.

(** What a settlement puts on display does not depend on what was there. *)
Lemma loadFeed_settle_view outcome wd w v :
  fst (fst (loadFeed_settle outcome wd w)) = Ok tt ->
  fst (fst (loadFeed_settle outcome (set_view v (set_observed false wd)) w)) = Ok tt
  /\ view (snd (fst (loadFeed_settle outcome (set_view v (set_observed false wd)) w)))
     = view (snd (fst (loadFeed_settle outcome wd w)))
  /\ view (snd (fst (loadFeed_settle outcome wd w))) <> Blank.
Proof.
  assert (Herr : fst (fst (showError wd w)) = Ok tt ->
    fst (fst (showError (set_view v (set_observed false wd)) w)) = Ok tt
    /\ view (snd (fst (showError (set_view v (set_observed false wd)) w)))
       = view (snd (fst (showError wd w)))
    /\ view (snd (fst (showError wd w))) <> Blank).
  { unfold showError. destruct (Api.getCachedFeed w) as [[[cached|]|e] w1]; simpl.
    - destruct (filterPosts_json _ _ _); simpl; [done|discriminate].
    - done.
    - discriminate. }
  unfold loadFeed_settle. destruct outcome as [result|e].
  - simpl config. destruct (filterPosts_json _ _ _) as [ps|].
    + simpl. done.
    + intros H.
      destruct (showError wd w) as [[r1 wd1] w1].
      destruct (showError (set_view v (set_observed false wd)) w) as [[r2 wd2] w2].
      simpl in *. by apply Herr.
  - intros H.
    destruct (showError wd w) as [[r1 wd1] w1].
    destruct (showError (set_view v (set_observed false wd)) w) as [[r2 wd2] w2].
    simpl in *. by apply Herr.
Qed.

(** X7. [destroy] does not cancel a load in progress: when the pending
    [fetchFeed] settles, the emptied element is filled again, with what
    it would show had [destroy] not been called. *)
Theorem destroy_keeps_pending_load s outcome rest :
  inflight s = outcome :: rest ->
  fst (fst (loadFeed_settle outcome (widget s) (world s))) = Ok tt ->
  view (widget (step CallDestroy s)) = Blank
  /\ view (widget (run [CallDestroy; Settle] s)) = view (widget (run [Settle] s))
  /\ view (widget (run [CallDestroy; Settle] s)) <> Blank.
Proof.
  intros Hfly Hok. split; [done|].
  destruct (loadFeed_settle_view outcome (widget s) (world s) Blank Hok)
    as (_ & Hsame & Hfilled).
  unfold run. simpl. rewrite Hfly. fold (destroy (widget s)). unfold destroy.
  destruct (loadFeed_settle outcome (widget s) (world s)) as [[r1 wd1] w1].
  destruct (loadFeed_settle outcome (set_view Blank (set_observed false (widget s))) (world s))
    as [[r2 wd2] w2].
  simpl in *. rewrite Hsame. done.
Qed.

Lemma destroy_keeps_pending_load_witness :
  view (widget (run [CallDestroy; Settle]
                  (step (Intersect true)
                     (boot Sample.no_options
                        (Sample.world "securent.nt.gov.au" Sample.flaky ∅ [])))))
  <> Blank.
Proof.
  edestruct (destroy_keeps_pending_load
               (step (Intersect true)
                  (boot Sample.no_options
                     (Sample.world "securent.nt.gov.au" Sample.flaky ∅ []))))
    as (_ & _ & H).
  - vm_compute. reflexivity.
  - vm_compute. reflexivity.
  - exact H.
Defined.

End Lifecycle.

(** ** [src/widget.js]: how the filters of [filterPosts] combine *)

Section FilterCombination.
Import Widget.

(** X8. A start or end date that is an Invalid Date, which is what the
    constructor keeps of an option that is no date, is no filter: every
    comparison with it is false, and [filterPosts] keeps what it keeps
    with that date removed from the configuration. *)
Theorem filterPosts_invalid_dates tz c P :
  filterPosts tz c P = filterPosts tz (without_invalid_dates c) P.
Proof.
  rewrite !filterPosts_filter. apply List.filter_ext. intros p.
  unfold keeps, without_invalid_dates, valid_date. simpl.
  destruct (startDate c) as [[s|]|]; destruct (endDate c) as [[e|]|]; simpl;
    try reflexivity;
    destruct (Dates.parse (created_time p)) as [t|]; simpl; try reflexivity;
    by destruct (t <? s).
Qed.

Lemma keeps_split tz c p :
  keeps tz c p = keeps tz (without_keywords c) p && keeps tz (without_dates c) p.
Proof.
  unfold keeps. simpl.
  destruct (non_null (startDate c) || non_null (endDate c)); [|done].
  destruct (match startDate c with Some s => _ | None => false end); [done|].
  destruct (endDate c) as [e|]; [|done].
  by destruct (negb _).
Qed.

(** X9. The two filters are independent and both must pass: filtering
    with dates and keywords is filtering by the dates alone and then by
    the keywords alone. *)
Theorem filterPosts_dates_then_keywords tz c P :
  filterPosts tz c P
  = filterPosts tz (without_dates c) (filterPosts tz (without_keywords c) P).
Proof.
  rewrite !filterPosts_filter.
  induction P as [|p P IH]; [done|]. simpl.
  rewrite (keeps_split tz c p).
  destruct (keeps tz (without_keywords c) p); simpl; [|done].
  destruct (keeps tz (without_dates c) p); by rewrite IH.
Qed.

(** X10. The end date is a date-only text, which [new Date] reads as
    midnight UTC.  In a host [off] ms east of UTC the filter ends with
    the last millisecond of that local day; in a host west of UTC
    midnight UTC falls on the day before, and the filter ends with the
    last millisecond before the local day of the end date begins. *)
Theorem endOfDay_fixed_offset off e :
  e mod Dates.msPerDay = 0 ->
  - Dates.msPerDay < off < Dates.msPerDay ->
  Z.abs e <= Dates.maxTime - 2 * Dates.msPerDay ->
  endOfDay (fixed_offset off) (Some e)
  = Some (if 0 <=? off then e + 86399999 - off else e - 1 - off).
Proof.
  intros Hmid Hoff He. unfold endOfDay, fixed_offset, Dates.TimeClip.
  replace (23 * 3600000 + 59 * 60000 + 59 * 1000 + 999) with 86399999 by done.
  unfold Dates.msPerDay, Dates.maxTime in *.
  apply Z.mod_divide in Hmid as [k Hk]; [|done].
  assert (Hday : (e + off) / 86400000 = if 0 <=? off then k else k - 1).
  { destruct (Z.leb_spec 0 off).
    - symmetry. apply (Z.div_unique _ _ _ off); lia.
    - symmetry. apply (Z.div_unique _ _ _ (off + 86400000)); lia. }
  rewrite Hday.
  destruct (Z.leb_spec 0 off);
    (destruct (Z.abs _ <=? _) eqn:Hc; [f_equal; lia | apply Z.leb_gt in Hc; lia]).
Qed.

Lemma endOfDay_fixed_offset_witness :
  endOfDay (fixed_offset 34200000) (Dates.parse "2025-12-02")
    = Dates.parse "2025-12-02T23:59:59.999+09:30"
  /\ endOfDay (fixed_offset (-18000000)) (Dates.parse "2025-12-02")
    = Dates.parse "2025-12-01T23:59:59.999-05:00".
Proof.
  split.
  - apply (endOfDay_fixed_offset 34200000 1764633600000);
      [reflexivity | split; reflexivity | ].
    vm_compute. discriminate.
  - apply (endOfDay_fixed_offset (-18000000) 1764633600000);
      [reflexivity | split; reflexivity | ].
    vm_compute. discriminate.
Defined.

Lemma trim_start_spaces l :
  Forall (fun c => Str.is_space c = true) l -> Str.trim_start l = [].
Proof. induction 1 as [|c l Hc _ IH]; [done|]. simpl. by rewrite Hc. Qed.

Lemma split_chars_blank l :
  Forall (fun c => c = ";"%char \/ Str.is_space c = true) l ->
  Forall (Forall (fun c => Str.is_space c = true)) (Str.split_chars ";"%char l)
  /\ Str.split_chars ";"%char l <> [].
Proof.
  induction 1 as [|c l Hc _ [IH Hne]]; [split; [by repeat constructor|done]|].
  simpl. destruct (decide (c = ";"%char)) as [->|Hsep].
  - split; [by constructor|done].
  - destruct Hc as [Hc|Hc]; [done|].
    destruct (Str.split_chars ";"%char l) as [|h t]; [done|].
    inversion IH; subst. split; [|done]. constructor; [by constructor|done].
Qed.

Lemma parse_keywords_blank text : blank_keywords text -> parse_keywords text = [].
Proof.
  intros Hblank. apply split_chars_blank in Hblank as [Hpieces _].
  unfold parse_keywords, Str.split. rewrite List.map_map.
  induction Hpieces as [|piece pieces Hpiece _ IH]; [done|].
  simpl. unfold Str.trim at 1. rewrite str_unstr, (trim_start_spaces piece Hpiece).
  simpl. exact IH.
Qed.

(** X11. A keywords option of separators and white space only, such as
    a lone semicolon, yields no keyword at all, and with no keyword the
    filter keeps every post. *)
Theorem filterPosts_blank_keywords tz raw text P :
  raw_filterKeywords raw = Some text ->
  blank_keywords text ->
  raw_startDate raw = None -> raw_endDate raw = None ->
  filterPosts tz (configure raw) P = P.
Proof.
  intros Htext Hblank Hs He. rewrite filterPosts_filter.
  apply forallb_filter_id, forallb_forall. intros p _.
  apply keeps_no_filter.
  - simpl. by rewrite Hs.
  - simpl. by rewrite He.
  - simpl. rewrite Htext. destruct (truthy (Some text)); [right|by left].
    by rewrite parse_keywords_blank.
Qed.

Lemma filterPosts_blank_keywords_witness :
  filterPosts Sample.utc
    (configure {| raw_apiUrl := None; raw_itemsPerPage := None; raw_fallbackUrl := None;
                  raw_theme := None; raw_title := None; raw_content := None;
                  raw_fallbackMessage := None; raw_filterKeywords := Some " ; ;"%string;
                  raw_startDate := None; raw_endDate := None |})
    [Sample.fire; Sample.calm]
  = [Sample.fire; Sample.calm].
Proof.
  apply (filterPosts_blank_keywords Sample.utc _ " ; ;"%string).
  - reflexivity.
  - unfold blank_keywords. simpl. repeat constructor; (by left) || (by right).
  - reflexivity.
  - reflexivity.
Defined.

End FilterCombination.

(** ** [src/widget.js]: the markup of [formatMessage] *)

Section MessageText.
Import Render.

Lemma flat_map_compose {A B C} (f : B -> list C) (g : A -> list B) l :
  flat_map f (flat_map g l) = flat_map (fun x => flat_map f (g x)) l.
Proof.
  induction l as [|x l IH]; [done|]. simpl. by rewrite flat_map_app, IH.
Qed.

(** X12. The six replacements of [formatMessage] act as one pass over the
    message: each character is escaped on its own, and neither the
    ampersand of an entity nor the brackets of a [<br>] that an earlier
    or later pass wrote are escaped again. *)
Theorem formatMessage_one_pass m :
  str (formatMessage m) = flat_map escaped (str m).
Proof.
  unfold formatMessage, replace_all. rewrite !str_unstr, !flat_map_compose.
  apply flat_map_ext. intros c.
  destruct c as [[] [] [] [] [] [] [] []]; reflexivity.
Qed.

Lemma inert_escaped c rest : inert (escaped c ++ rest) = inert rest.
Proof. destruct c as [[] [] [] [] [] [] [] []]; reflexivity. Qed.

(** X13. Whatever the message of a post, what [formatMessage] returns
    opens no tag but [<br>] and holds no quote: every [<] in it begins
    a [<br>], and there is no other [>], no double and no single quote. *)
Theorem formatMessage_inert m : inert (str (formatMessage m)) = true.
Proof.
  unfold formatMessage, replace_all. rewrite !str_unstr, !flat_map_compose.
  rewrite (flat_map_ext _ escaped).
  - induction (str m) as [|c l IH]; [done|].
    simpl flat_map. by rewrite inert_escaped.
  - intros c. destruct c as [[] [] [] [] [] [] [] []]; reflexivity.
Qed.

End MessageText.

(** ** The bundle: page links and the dates sent to the server *)

Section PageLinks.
Import Bundle.

(** X14. On a page that exists, the numbered links of the bundle are
    [min(5, totalPages)] consecutive page numbers from some [first] on,
    the current page is one of them, and each of them is a page that
    exists. *)
Theorem page_links_window currentPage totalPages :
  1 <= currentPage <= totalPages ->
  exists first,
    page_links currentPage totalPages
    = List.map (fun i => first + Z.of_nat i) (seq 0 (Z.to_nat (Z.min 5 totalPages)))
    /\ 1 <= first <= currentPage
    /\ currentPage < first + Z.min 5 totalPages <= totalPages + 1.
Proof.
  intros Hpage. unfold page_links, maxVisiblePages.
  change (5 / 2) with 2.
  set (start0 := Z.max 1 (currentPage - 2)).
  set (endPage := Z.min totalPages (start0 + 5 - 1)).
  set (startPage := if endPage - start0 <? 5 - 1 then Z.max 1 (endPage - 5 + 1) else start0).
  assert (Hwin : 1 <= startPage <= currentPage /\ currentPage <= endPage <= totalPages
                 /\ endPage - startPage + 1 = Z.min 5 totalPages).
  { subst startPage endPage start0.
    destruct (Z.ltb_spec (Z.min totalPages (Z.max 1 (currentPage - 2) + 5 - 1)
                          - Z.max 1 (currentPage - 2)) (5 - 1)); lia. }
  destruct Hwin as (Hstart & Hend & Hlen).
  exists startPage. rewrite Hlen. split; [done|]. lia.
Qed.

Lemma page_links_window_witness :
  exists first,
    Bundle.page_links 7 8 = List.map (fun i => first + Z.of_nat i) (seq 0 5)
    /\ 1 <= first <= 7 /\ 7 < first + 5 <= 9.
Proof.
  apply (page_links_window 7 8). lia.
Defined.

(** X15. The day the bundle sends to the server for a date option, which
    [new Date] reads as midnight UTC, is the local day of that instant:
    the day of the option for a host east of UTC, the day before it for a
    host west of UTC. *)
Theorem formatDateForApi_fixed_offset off e :
  e mod Dates.msPerDay = 0 ->
  - Dates.msPerDay < off < Dates.msPerDay ->
  formatDateForApi (fixed_offset off) (Some e)
  = formatDateForApi Sample.utc (Some (if 0 <=? off then e else e - Dates.msPerDay)).
Proof.
  intros Hmid Hoff. unfold formatDateForApi, fixed_offset, Sample.utc.
  unfold Dates.msPerDay in *.
  apply Z.mod_divide in Hmid as [k Hk]; [|done].
  assert (Hday : (e + off) / 86400000
                 = ((if 0 <=? off then e else e - 86400000) + 0) / 86400000).
  { destruct (Z.leb_spec 0 off).
    - rewrite <- (Z.div_unique (e + off) 86400000 k off) by lia.
      by rewrite <- (Z.div_unique (e + 0) 86400000 k 0) by lia.
    - rewrite <- (Z.div_unique (e + off) 86400000 (k - 1) (off + 86400000)) by lia.
      by rewrite <- (Z.div_unique (e - 86400000 + 0) 86400000 (k - 1) 0) by lia. }
  by rewrite Hday.
Qed.

Lemma formatDateForApi_fixed_offset_witness :
  formatDateForApi (fixed_offset (-18000000)) (Dates.parse "2025-12-02") = "2025-12-01"%string
  /\ formatDateForApi (fixed_offset 34200000) (Dates.parse "2025-12-02") = "2025-12-02"%string.
Proof.
  assert (Hparse : Dates.parse "2025-12-02" = Some 1764633600000)
    by (vm_compute; reflexivity).
  rewrite Hparse. split.
  - rewrite (formatDateForApi_fixed_offset (-18000000) 1764633600000);
      [reflexivity | reflexivity | split; reflexivity].
  - rewrite (formatDateForApi_fixed_offset 34200000 1764633600000);
      [reflexivity | reflexivity | split; reflexivity].
Defined.

End PageLinks.

(** ** [src/index.js]: [initWidgets] *)

Section Initialisation.
Import Index.




End Initialisation.

(** ** [loadFeed] on top of [fetchFeed] *)

Section RefreshOffline.
Import Widget.



End RefreshOffline.

(** ** [src/widget.js]: the buttons of [renderPagination] *)

Section Buttons.
Import Widget.

Lemma goToPage_noop page wd :
  goToPage page wd = wd <-> page < 1 \/ totalPages wd < page.
Proof.
  unfold goToPage.
  destruct ((page <? 1) || (totalPages wd <? page)) eqn:Hguard.
  - split; [|done]. intros _.
    apply orb_true_iff in Hguard as [H|H]; apply Z.ltb_lt in H; [by left|by right].
  - apply orb_false_iff in Hguard as [H1 H2]. apply Z.ltb_ge in H1, H2.
    split; [|lia]. intros Heq. apply (f_equal scrolls) in Heq. simpl in Heq. lia.
Qed.

(** X18. The buttons tell the truth: when [render] shows the pagination
    of an instance whose page is in range, Previous is disabled exactly
    when a click on it, [goToPage(currentPage - 1)], would do nothing,
    and Next exactly when [goToPage(currentPage + 1)] would do nothing. *)
Theorem disabled_buttons_do_nothing wd :
  page_in_range wd ->
  forall prev next,
    prevDisabled (view (render wd)) = Some prev ->
    nextDisabled (view (render wd)) = Some next ->
    (prev = true <-> goToPage (currentPage wd - 1) wd = wd)
    /\ (next = true <-> goToPage (currentPage wd + 1) wd = wd).
Proof.
  unfold page_in_range. intros Hrange prev next. simpl.
  destruct (Z.ltb_spec 1 (totalPages wd)) as [Hmany|]; [|discriminate].
  intros [= <-] [= <-]. rewrite !goToPage_noop, !Z.eqb_eq. lia.
Qed.

Lemma disabled_buttons_do_nothing_witness :
  goToPage 4 Sample.five_posts = Sample.five_posts
  /\ goToPage 2 Sample.five_posts <> Sample.five_posts.
Proof.
  destruct (disabled_buttons_do_nothing Sample.five_posts) with (prev := false) (next := true)
    as [Hprev Hnext].
  - vm_compute. split; discriminate.
  - reflexivity.
  - reflexivity.
  - split; [by apply Hnext|]. intros Hstay. by apply Hprev in Hstay.
Defined.

End Buttons.

(** ** [src/widget.js]: the error view of [showError] *)

Section Fallback.
Import Widget.

(** When [fetchFeed] throws, the store holds no cache entry. *)
Lemma fetchFeed_throw_no_cache apiUrl w e w1 :
  Api.fetchFeed apiUrl w = (Throw e, w1) -> cache_entry w1 = None.
Proof.
  unfold Api.fetchFeed, try_catch, bind. intros H.
  destruct (Api.getApiUrl apiUrl w) as [[url|e0] wa] eqn:Hurl.
  2:{ destruct (getApiUrl_spec apiUrl w) as (? & Heq & _). congruence. }
  destruct (Api.fetchWithRetry url 2 wa) as [[posts|e1] wb] eqn:Hlive.
  - unfold Date_now, ret in H. discriminate.
  - destruct (getFromCache_spec wb) as (wc & Hget & _ & (_ & _ & _ & Hd) & _ & _ & Hs & _).
    rewrite Hget in H.
    destruct (cache_entry wb) eqn:Hentry; [discriminate|].
    unfold throw in H. inversion H; subst.
    rewrite <- Hentry. by apply cache_entry_ext.
Qed.

(** X19. When the live fetch fails and there is no cache entry, so that
    [fetchFeed] throws, [loadFeed] does not throw: it shows the fallback
    message, the configured one or the default, with the link to
    [fallbackUrl], keeps the posts it held and releases the loading flag. *)
Theorem loadFeed_shows_fallback isRefresh wd w e w1 :
  isLoading wd = false ->
  0 <= itemsPerPage (options (config wd)) <= 4294967295 ->
  Api.fetchFeed (apiUrl (options (config wd))) w = (Throw e, w1) ->
  exists wd1 w2,
    loadFeed isRefresh wd w = (Ok tt, wd1, w2)
    /\ view wd1 = ErrorView (fallback_text wd) (fallbackUrl (options (config wd)))
    /\ posts wd1 = posts wd
    /\ isLoading wd1 = false.
Proof.
  intros Hidle Hsize Hthrow.
  pose proof (fetchFeed_throw_no_cache _ _ _ _ Hthrow) as Hnone.
  destruct (getFromCache_spec w1) as (w2 & Hget & _).
  rewrite Hnone in Hget.
  assert (Hguard : (itemsPerPage (options (config wd)) <? 0)
                   || (4294967295 <? itemsPerPage (options (config wd))) = false).
  { apply orb_false_iff. split; apply Z.ltb_ge; lia. }
  pose proof (loadFeed_begin_fields isRefresh wd) as Hbegin.
  unfold loadFeed.
  destruct (loadFeed_begin isRefresh wd) as [|wd' e'|wd'] eqn:Hb.
  - congruence.
  - unfold loadFeed_begin in Hb. rewrite Hidle in Hb.
    destruct isRefresh; [discriminate|]. simpl in Hb. by rewrite Hguard in Hb.
  - destruct Hbegin as (_ & _ & Hconfig & Hposts & _).
    rewrite Hconfig, Hthrow.
    unfold loadFeed_settle, showError, Api.getCachedFeed, fallback_text.
    rewrite Hget, Hconfig. eexists _, w2. split; [reflexivity|]. done.
Qed.

Lemma loadFeed_shows_fallback_witness :
  view (snd (fst (loadFeed false (create Sample.no_options)
                    (Sample.world "securent.nt.gov.au" Sample.down ∅ []))))
  = ErrorView "Unable to load posts at this time." "https://www.facebook.com/SecureNT".
Proof.
  edestruct (loadFeed_shows_fallback false (create Sample.no_options)
               (Sample.world "securent.nt.gov.au" Sample.down ∅ []))
    as (wd1 & w2 & Hrun & Hview & _).
  - reflexivity.
  - vm_compute. split; discriminate.
  - vm_compute. reflexivity.
  - rewrite Hrun. exact Hview.
Defined.

End Fallback.

(** ** [src/api.js]: a cache that cannot be read *)

Section CorruptCache.
Import Api.

(** A text that begins with no JSON value is refused by [JSON.parse]. *)
Lemma parse_starts_no_value text : starts_no_value text -> Json.parse text = None.
Proof.
  unfold starts_no_value, Json.parse. simpl Json.parse_value.
  destruct (Json.skip_ws (str text)) as [|c rest]; [done|].
  intros [Hdigit Hstart].
  destruct c as [[] [] [] [] [] [] [] []];
    try (vm_compute in Hdigit; discriminate Hdigit);
    try (exfalso; apply Hstart; vm_compute; tauto);
    reflexivity.
Qed.

(** X20. A posts item in the cache that cannot be JSON, because it is
    empty or begins with a character no JSON value begins with, counts
    as no cache: with every attempt failing, [fetchFeed] throws, and
    what it throws is the error of the third attempt, not the
    SyntaxError of [JSON.parse]. *)
Theorem fetchFeed_corrupt_cache apiUrl w text :
  storage w !! CACHE_KEY = Some text ->
  starts_no_value text ->
  (forall (i : nat) url, failed (attempt_result (network w (sent w + i)%nat url))) ->
  exists url e w',
    attempt_result (network w (sent w + 2)%nat url) = Throw e
    /\ fetchFeed apiUrl w = (Throw e, w')
    /\ storage w' = storage w.
Proof.
  intros Htext Hbad%parse_starts_no_value Hdown.
  assert (Hnone : cache_entry w = None).
  { unfold cache_entry. rewrite Htext, Hbad.
    destruct (storage_denied w); [done|].
    destruct (storage w !! CACHE_TIME_KEY); [|done]. by destruct (_ && _). }
  unfold fetchFeed, try_catch, bind.
  destruct (getApiUrl_spec apiUrl w)
    as (wa & Hurl & (_ & _ & Hna & Hda) & Hsent & _ & Hsa & _).
  rewrite Hurl. set (url := if decide (on_localhost w) then _ else _).
  destruct (fetchWithRetry_spec url wa) as (k & wb & _ & Hrun & _ & Hlast & _).
  rewrite Hrun. rewrite Hna, Hsent in *.
  pose proof (Hdown k url) as Hfailed.
  assert (k = 2%nat) as -> by (by apply Hlast).
  destruct (attempt_result (network w (sent w + 2)%nat url)) as [v|e] eqn:Hres; [done|].
  apply fetchWithRetry_loop_failure in Hrun as (Hsb & _ & Hdb).
  destruct (getFromCache_spec wb) as (wc & Hget & _ & _ & _ & _ & Hsc & _).
  rewrite Hget, (cache_entry_ext w wb), Hnone by congruence.
  exists url, e, wc. rewrite Hres. split; [done|]. split; [done|]. congruence.
Qed.

Lemma fetchFeed_corrupt_cache_witness :
  fst (fetchFeed Sample.endpoint
         (Sample.world "securent.nt.gov.au" Sample.down
            (<[CACHE_TIME_KEY := "2025-12-15T09:01:23.000Z"%string]>
               (<[CACHE_KEY := "undefined"%string]> ∅)) []))
  = Throw {| error_message := "Failed to fetch" |}.
Proof.
  edestruct (fetchFeed_corrupt_cache Sample.endpoint
               (Sample.world "securent.nt.gov.au" Sample.down
                  (<[CACHE_TIME_KEY := "2025-12-15T09:01:23.000Z"%string]>
                     (<[CACHE_KEY := "undefined"%string]> ∅)) []))
    as (url & e & w' & Herr & Hrun & _).
  - vm_compute. reflexivity.
  - vm_compute. split; [reflexivity|]. intuition discriminate.
  - intros i url. exact I.
  - rewrite Hrun. simpl. simpl in Herr. by inversion Herr.
Defined.

End CorruptCache.
